(** * The spatial choreography engine of [src/index.tsx]

    A shallow embedding of the per-frame logic of the scene: the layout
    generators ([generateTreeData], the ornament and photo populations),
    the ornament integrator ([updateList]), the foliage progress filter
    ([Foliage]), the photo focus selector ([Polaroids]) and the gesture
    classifier ([predictWebcam]).

    JavaScript numbers are idealised as real numbers: the rounding of
    doubles, NaN and the infinities are outside this model; the rounding of
    a store into a [Float32Array] is a parameter of the generator that
    makes it.  Every comparison of the source
    is a decision on [R] ([Rlt_dec], [Rgt_dec]); the operations of
    three.js that the source calls ([Vector3], [MathUtils.lerp]) are
    written out next to their use. *)

From Stdlib Require Import Reals Lra List Bool Arith Lia.
From Stdlib Require String.
Import String.StringSyntax.
Import ListNotations.
Open Scope R_scope.

(** ** three.js [Vector3] *)

Module Vector3.

Record t : Type := mk { x : R; y : R; z : R }.

Definition zero : t := mk 0 0 0.

Definition add (a b : t) : t := mk (x a + x b) (y a + y b) (z a + z b).
Definition sub (a b : t) : t := mk (x a - x b) (y a - y b) (z a - z b).
Definition multiplyScalar (a : t) (s : R) : t := mk (x a * s) (y a * s) (z a * s).

(** [divideScalar(s)] is [multiplyScalar(1 / s)]. *)
Definition divideScalar (a : t) (s : R) : t := multiplyScalar a (1 / s).

Definition lengthSq (a : t) : R := x a * x a + y a * y a + z a * z a.
Definition length (a : t) : R := sqrt (lengthSq a).

Definition distanceToSquared (a b : t) : R :=
  let dx := x a - x b in
  let dy := y a - y b in
  let dz := z a - z b in
  dx * dx + dy * dy + dz * dz.
Definition distanceTo (a b : t) : R := sqrt (distanceToSquared a b).

(** The divisor of [normalize]: [this.length() || 1]. *)
Definition lengthOr1 (a : t) : R :=
  if Req_dec_T (length a) 0 then 1 else length a.

(** [normalize()] is [divideScalar(this.length() || 1)]. *)
Definition normalize (a : t) : t := divideScalar a (lengthOr1 a).

(** [a.lerp(b, alpha)]: each component moves by [(b - a) * alpha]. *)
Definition lerp (a b : t) (alpha : R) : t :=
  mk (x a + (x b - x a) * alpha)
     (y a + (y b - y a) * alpha)
     (z a + (z b - z a) * alpha).

(** [applyAxisAngle((0,1,0), angle)]: a rotation about the vertical axis. *)
Definition applyAxisAngleY (a : t) (angle : R) : t :=
  mk (x a * cos angle + z a * sin angle)
     (y a)
     (z a * cos angle - x a * sin angle).

End Vector3.

Module MathUtils.
(** [THREE.MathUtils.lerp(x, y, t)] is [(1 - t) * x + t * y]. *)
Definition lerp (x y t : R) : R := (1 - t) * x + t * y.
End MathUtils.

(** ** Constants and configuration *)

Module CONFIG.
Definition particleCount : nat := 28 * 1000.
Definition ornamentCount : nat := 1000.
Module dimensions.
Definition height : R := 9.
Definition radius : R := 3.5.
End dimensions.
End CONFIG.

(** The [mode] prop, ['chaos' | 'formed']. *)
Inductive Mode : Type := chaos | formed.

Definition Mode_eqb (a b : Mode) : bool :=
  match a, b with
  | chaos, chaos | formed, formed => true
  | _, _ => false
  end.

(** ** Ornaments: the per-frame integrator *)

(** The [type] strings that [updateList] is called with. *)
Inductive OrnamentType : Type := bauble | box | light | star | bell | cane.

Record OrnamentData : Type := mkOrnament {
  o_chaos : Vector3.t;
  o_target : Vector3.t;
  o_current : Vector3.t;
  o_velocity : Vector3.t;
  o_scale : R;
  o_color : Vector3.t;
  o_phase : R
}.

(** The three weights that [updateList] assigns from [type]. *)
Record Weights : Type := mkWeights {
  speed : R;
  damping : R;
  repulsionWeight : R
}.

Definition weights (type : OrnamentType) : Weights :=
  match type with
  | box => mkWeights 1.2 0.82 0.2
  | star => mkWeights 4.0 0.92 1.2
  | bell => mkWeights 2.0 0.88 0.5
  | cane => mkWeights 4.0 0.94 1.5
  | light => mkWeights 6.0 0.95 2.5
  | bauble => mkWeights 2.8 0.9 0.8
  end.

(** The radius of the mouse interaction, the literal [3.5] of [updateList]. *)
Definition interactionRadius : R := 3.5.

(** The vector that the branch [dist < 3.5] adds to the velocity, and the
    zero vector where the branch is not taken. *)
Definition repulsion (current mouseVec : Vector3.t) (delta w : R) : Vector3.t :=
  let dist := Vector3.distanceTo current mouseVec in
  if Rlt_dec dist interactionRadius then
    let dir := Vector3.normalize (Vector3.sub current mouseVec) in
    let str := (interactionRadius - dist) * 15.0 * delta * w in
    Vector3.multiplyScalar dir str
  else Vector3.zero.

(** [dest.clone().sub(item.current).multiplyScalar(speed * delta)]. *)
Definition force (dest current : Vector3.t) (spd delta : R) : Vector3.t :=
  Vector3.multiplyScalar (Vector3.sub dest current) (spd * delta).

(** The physics part of the body of [list.forEach] in [updateList]: the
    statements from [const dest] to [item.current.add(item.velocity)]. *)
Definition integrate (isFormed : bool) (delta : R) (mouseVec : Vector3.t)
    (type : OrnamentType) (item : OrnamentData) : OrnamentData :=
  let dest := if isFormed then o_target item else o_chaos item in
  let w := weights type in
  (* Force Calculation *)
  let v1 := Vector3.add (o_velocity item) (force dest (o_current item) (speed w) delta) in
  (* Mouse Interaction *)
  let dist := Vector3.distanceTo (o_current item) mouseVec in
  let v2 :=
    if Rlt_dec dist interactionRadius then
      let dir := Vector3.normalize (Vector3.sub (o_current item) mouseVec) in
      let str := (interactionRadius - dist) * 15.0 * delta * repulsionWeight w in
      Vector3.add v1 (Vector3.multiplyScalar dir str)
    else v1 in
  (* Apply Velocity *)
  let v3 := Vector3.multiplyScalar v2 (damping w) in
  let c := Vector3.add (o_current item) v3 in
  mkOrnament (o_chaos item) (o_target item) c v3
             (o_scale item) (o_color item) (o_phase item).

(** The scratch [dummy] object shared by the items of a frame: only its
    Euler angles carry over from one item to the next.  The component makes
    a new [dummy], with angles zero, each time it renders. *)
Record Euler : Type := mkEuler { rx : R; ry : R; rz : R }.

(** What [setMatrixAt] receives: the content of [dummy] after its update. *)
Record Pose : Type := mkPose {
  p_position : Vector3.t;
  p_scale : R;
  p_rotation : Euler
}.

Definition OrnamentType_eqb (a b : OrnamentType) : bool :=
  match a, b with
  | bauble, bauble | box, box | light, light
  | star, star | bell, bell | cane, cane => true
  | _, _ => false
  end.

(** Rotation Logic. *)
Definition rotate (type : OrnamentType) (time delta : R) (current : Vector3.t)
    (rot : Euler) : Euler :=
  let r1 :=
    match type with
    | bell =>
        mkEuler (sin (time * 3 + Vector3.x current) * 0.3)
                (ry rot)
                (cos (time * 2 + Vector3.z current) * 0.3)
    | cane => mkEuler 0.2 (ry rot + delta * 0.5) 0.2
    | _ =>
        mkEuler (rx rot + delta * (if OrnamentType_eqb type box then 0.2 else 0.5))
                (ry rot + delta)
                (rz rot)
    end in
  if OrnamentType_eqb type star
  then mkEuler (rx r1) (ry r1) (rz r1 + delta * 0.8)
  else r1.

(** Twinkle Logic: the colour written by [setColorAt] for a light in formed
    mode, nothing otherwise. *)
Definition twinkle (isFormed : bool) (time : R) (type : OrnamentType)
    (item : OrnamentData) : option Vector3.t :=
  if OrnamentType_eqb type light && isFormed then
    let brightness := 0.5 + 0.5 * sin (time * 5 + o_phase item) in
    Some (Vector3.multiplyScalar (o_color item) brightness)
  else None.

(** One iteration of [list.forEach]: the item after the tick, the pose and
    the colour it emits, and the angles left in [dummy]. *)
Definition updateItem (isFormed : bool) (time delta : R) (mouseVec : Vector3.t)
    (type : OrnamentType) (rot : Euler) (item : OrnamentData)
    : OrnamentData * Pose * option Vector3.t * Euler :=
  let colour := twinkle isFormed time type item in
  let item' := integrate isFormed delta mouseVec type item in
  let rot' := rotate type time delta (o_current item') rot in
  (item', mkPose (o_current item') (o_scale item') rot', colour, rot').

(** The frame output of one list. *)
Record ListFrame : Type := mkListFrame {
  lf_items : list OrnamentData;
  lf_poses : list Pose;
  lf_colours : list (option Vector3.t);
  lf_dummy : Euler
}.

Fixpoint forEachItem (isFormed : bool) (time delta : R) (mouseVec : Vector3.t)
    (type : OrnamentType) (rot : Euler) (list : list OrnamentData) : ListFrame :=
  match list with
  | [] => mkListFrame [] [] [] rot
  | item :: rest =>
      let '(item', pose, colour, rot') :=
        updateItem isFormed time delta mouseVec type rot item in
      let r := forEachItem isFormed time delta mouseVec type rot' rest in
      mkListFrame (item' :: lf_items r) (pose :: lf_poses r)
                  (colour :: lf_colours r) (lf_dummy r)
  end.

(** How a call ends: it returns, or it throws; either way [a] is what it
    leaves behind, the items being updated in place. *)
Inductive Outcome (A : Type) : Type :=
  | Returned (a : A)
  | Thrown (a : A).

Arguments Returned {A} a.
Arguments Thrown {A} a.

Definition leaves {A : Type} (o : Outcome A) : A :=
  match o with Returned a | Thrown a => a end.

Definition returns {A : Type} (o : Outcome A) : bool :=
  match o with Returned _ => true | Thrown _ => false end.

(** The [instanceColor] of a mesh after the calls of [setColorAt] of one
    loop: [setColorAt] makes the attribute when the mesh has none, and a
    mesh is constructed with none ([null]). *)
Definition afterSetColorAt (instanceColor : bool)
    (colours : list (option Vector3.t)) : bool :=
  instanceColor ||
  existsb (fun c => match c with Some _ => true | None => false end) colours.

(** [updateList(list, ref, type)].  [mounted] is [ref.current] being set:
    without it the call returns before touching anything.  [instanceColor]
    is [ref.current.instanceColor] being there: the last statement,
    [if (type === 'light') ref.current.instanceColor!.needsUpdate = true],
    throws a [TypeError] when it is [null], after the loop has run.  The
    result carries the frame and the [instanceColor] of the mesh after it. *)
Definition updateList (mounted instanceColor isFormed : bool) (time delta : R)
    (mouseVec : Vector3.t) (type : OrnamentType) (rot : Euler)
    (list : list OrnamentData) : Outcome (ListFrame * bool) :=
  if mounted then
    let f := forEachItem isFormed time delta mouseVec type rot list in
    let colour := afterSetColorAt instanceColor (lf_colours f) in
    if OrnamentType_eqb type light then
      if colour then Returned (f, colour) else Thrown (f, colour)
    else Returned (f, colour)
  else Returned (mkListFrame list [] [] rot, instanceColor).

(** The six populations of [Ornaments], which the frame callback updates in
    place, and the angles of [dummy] at the start of a frame: those the
    frame before left, or zero after a render of the component. *)
Record OrnamentsState : Type := mkOrnaments {
  baubles : list OrnamentData;
  boxes : list OrnamentData;
  lights : list OrnamentData;
  stars : list OrnamentData;
  bells : list OrnamentData;
  canes : list OrnamentData;
  dummy : Euler
}.

(** Which of the six instanced meshes are mounted ([ref.current]). *)
Record OrnamentRefs : Type := mkRefs {
  baubleRef : bool; boxRef : bool; lightRef : bool;
  starRef : bool; bellRef : bool; caneRef : bool
}.

(** [state.pointer] and [state.viewport] as the frame callbacks read them. *)
Record Pointer : Type := mkPointer {
  pointer_x : R; pointer_y : R;
  viewport_width : R; viewport_height : R
}.

(** [mouseVec.set(pointer.x * viewport.width / 2, pointer.y * viewport.height / 2, 2)]. *)
Definition mouseVecOf (ptr : Pointer) : Vector3.t :=
  Vector3.mk (pointer_x ptr * viewport_width ptr / 2)
             (pointer_y ptr * viewport_height ptr / 2)
             2.

(** The list of [Ornaments] that holds the items of a type. *)
Definition listOf (type : OrnamentType) (s : OrnamentsState) : list OrnamentData :=
  match type with
  | bauble => baubles s
  | box => boxes s
  | light => lights s
  | star => stars s
  | bell => bells s
  | cane => canes s
  end.

Definition refOf (type : OrnamentType) (refs : OrnamentRefs) : bool :=
  match type with
  | bauble => baubleRef refs
  | box => boxRef refs
  | light => lightRef refs
  | star => starRef refs
  | bell => bellRef refs
  | cane => caneRef refs
  end.

(** Which of the six instanced meshes have an [instanceColor]. *)
Record OrnamentColours : Type := mkColours {
  baubleColour : bool; boxColour : bool; lightColour : bool;
  starColour : bool; bellColour : bool; caneColour : bool
}.

Definition colourOf (type : OrnamentType) (c : OrnamentColours) : bool :=
  match type with
  | bauble => baubleColour c
  | box => boxColour c
  | light => lightColour c
  | star => starColour c
  | bell => bellColour c
  | cane => caneColour c
  end.

Definition setColour (type : OrnamentType) (b : bool) (c : OrnamentColours)
    : OrnamentColours :=
  match type with
  | bauble => mkColours b (boxColour c) (lightColour c) (starColour c) (bellColour c) (caneColour c)
  | box => mkColours (baubleColour c) b (lightColour c) (starColour c) (bellColour c) (caneColour c)
  | light => mkColours (baubleColour c) (boxColour c) b (starColour c) (bellColour c) (caneColour c)
  | star => mkColours (baubleColour c) (boxColour c) (lightColour c) b (bellColour c) (caneColour c)
  | bell => mkColours (baubleColour c) (boxColour c) (lightColour c) (starColour c) b (caneColour c)
  | cane => mkColours (baubleColour c) (boxColour c) (lightColour c) (starColour c) (bellColour c) b
  end.

(** The layout effect of [Ornaments], "Update Instance Colors on Mount": on
    each mounted mesh, one [setColorAt] per item of its list, so that the
    mesh has an [instanceColor] afterwards exactly when the list is not
    empty. *)
Definition Ornaments_useLayoutEffect (refs : OrnamentRefs) (s : OrnamentsState)
    : OrnamentColours :=
  let effect := fun type =>
    if refOf type refs
    then afterSetColorAt false (map (fun item => Some (o_color item)) (listOf type s))
    else false in
  mkColours (effect bauble) (effect box) (effect light)
            (effect star) (effect bell) (effect cane).

(** The items of one list and the angles of [dummy] written back into the
    state. *)
Definition setList (type : OrnamentType) (l : list OrnamentData) (rot : Euler)
    (s : OrnamentsState) : OrnamentsState :=
  match type with
  | bauble => mkOrnaments l (boxes s) (lights s) (stars s) (bells s) (canes s) rot
  | box => mkOrnaments (baubles s) l (lights s) (stars s) (bells s) (canes s) rot
  | light => mkOrnaments (baubles s) (boxes s) l (stars s) (bells s) (canes s) rot
  | star => mkOrnaments (baubles s) (boxes s) (lights s) l (bells s) (canes s) rot
  | bell => mkOrnaments (baubles s) (boxes s) (lights s) (stars s) l (canes s) rot
  | cane => mkOrnaments (baubles s) (boxes s) (lights s) (stars s) (bells s) l rot
  end.

(** One call [updateList(list, ref, type)] of the frame callback, on the
    populations and the meshes as the calls before it left them. *)
Definition updateListOf (refs : OrnamentRefs) (isFormed : bool) (time delta : R)
    (mouseVec : Vector3.t) (type : OrnamentType)
    (sc : OrnamentsState * OrnamentColours)
    : Outcome (OrnamentsState * OrnamentColours) :=
  let s := fst sc in
  let c := snd sc in
  let write := fun r : ListFrame * bool =>
    (setList type (lf_items (fst r)) (lf_dummy (fst r)) s, setColour type (snd r) c) in
  match updateList (refOf type refs) (colourOf type c) isFormed time delta
                   mouseVec type (dummy s) (listOf type s) with
  | Returned r => Returned (write r)
  | Thrown r => Thrown (write r)
  end.

(** Sequencing of statements: what follows a call that throws does not run. *)
Definition andThen {A : Type} (o : Outcome A) (k : A -> Outcome A) : Outcome A :=
  match o with
  | Returned a => k a
  | Thrown a => Thrown a
  end.

(** The frame callback of [Ornaments]: six calls of [updateList], in the
    order of the source, that hand the angles of [dummy] from one to the
    next; a call that throws ends the callback. *)
Definition Ornaments_useFrame (refs : OrnamentRefs) (colours : OrnamentColours)
    (mode : Mode) (time delta : R) (ptr : Pointer) (s : OrnamentsState)
    : Outcome (OrnamentsState * OrnamentColours) :=
  let isFormed := Mode_eqb mode formed in
  let mouseVec := mouseVecOf ptr in
  let upd := updateListOf refs isFormed time delta mouseVec in
  andThen (andThen (andThen (andThen (andThen
    (upd bauble (s, colours))
    (upd box)) (upd light)) (upd star)) (upd bell)) (upd cane).

(** ** Foliage: the progress uniform and the vertex shader *)

(** The uniforms of [LuxuryFoliageMaterial] that the frame callback writes. *)
Record Uniforms : Type := mkUniforms {
  uTime : R;
  uProgress : R;
  uMouse : Vector3.t
}.

(** The defaults given to [shaderMaterial]. *)
Definition initialUniforms : Uniforms :=
  mkUniforms 0 0 (Vector3.mk 999 999 999).

Definition targetProgress (mode : Mode) : R :=
  if Mode_eqb mode formed then 1.0 else 0.0.

(** The progress after one tick:
    [lerp(uProgress, targetProgress, delta * 0.8)]. *)
Definition stepProgress (mode : Mode) (delta progress : R) : R :=
  MathUtils.lerp progress (targetProgress mode) (delta * 0.8).

(** The frame callback of [Foliage]; [mounted] is [materialRef.current]. *)
Definition Foliage_useFrame (mounted : bool) (mode : Mode)
    (elapsedTime delta : R) (ptr : Pointer) (u : Uniforms) : Uniforms :=
  if mounted then
    mkUniforms elapsedTime
               (stepProgress mode delta (uProgress u))
               (Vector3.lerp (uMouse u) (mouseVecOf ptr) 0.15)
  else u.

Module GLSL.
(** [mix(a, b, t)] is [a * (1 - t) + b * t], componentwise. *)
Definition mix (a b : Vector3.t) (t : R) : Vector3.t :=
  Vector3.add (Vector3.multiplyScalar a (1 - t)) (Vector3.multiplyScalar b t).

(** [normalize(v)] is [v / length(v)]; GLSL leaves it undefined at the
    zero vector, and nothing below is stated there. *)
Definition normalize (v : Vector3.t) : Vector3.t :=
  Vector3.multiplyScalar v (/ Vector3.length v).
End GLSL.

(** The [offset] computed inside [if (dist < interactionRadius)]. *)
Definition offsetInRange (finalPos mouse : Vector3.t) (time : R) : Vector3.t :=
  let dist := Vector3.distanceTo finalPos mouse in
  let dir := GLSL.normalize (Vector3.sub finalPos mouse) in
  let force := (interactionRadius - dist) / interactionRadius in
  (* Add curl noise-like movement *)
  let noise := sin (Vector3.x finalPos * 20.0 + time * 5.0) in
  Vector3.add (Vector3.multiplyScalar (Vector3.multiplyScalar dir force) 2.5)
              (Vector3.mk 0 (noise * 0.2) 0).

(** What the vertex shader adds to [finalPos] for the pointer: [offset]
    within the radius, nothing beyond it. *)
Definition shaderOffset (finalPos mouse : Vector3.t) (time : R) : Vector3.t :=
  if Rlt_dec (Vector3.distanceTo finalPos mouse) interactionRadius
  then offsetInRange finalPos mouse time
  else Vector3.zero.

(** [finalPos] of the vertex shader, before the model-view transform. *)
Definition vertexPosition (u : Uniforms) (aChaosPos aTargetPos : Vector3.t)
    (aRandom : R) : Vector3.t :=
  let p0 := GLSL.mix aChaosPos aTargetPos (uProgress u) in
  let breath := sin (uTime u * 1.5 + Vector3.y p0 * 0.5 + aRandom * 10.0) in
  let p1 := Vector3.add p0
              (Vector3.multiplyScalar (GLSL.normalize p0) (breath * 0.03 * uProgress u)) in
  let dist := Vector3.distanceTo p1 (uMouse u) in
  if Rlt_dec dist interactionRadius
  then Vector3.add p1 (offsetInRange p1 (uMouse u) (uTime u))
  else p1.

(** ** The gesture classifier of [App] *)

Record Landmark : Type := mkLandmark { lm_x : R; lm_y : R }.

(** [{x, y}] of the hand, or [null]. *)
Definition HandPosition : Type := option (R * R).

Record AppState : Type := mkApp {
  mode : Mode;
  handPosition : HandPosition;
  isPinching : bool
}.

(** The [useState] defaults of [App]. *)
Definition initialApp : AppState := mkApp formed None false.

(** [Math.sqrt(Math.pow(a.x - b.x, 2) + Math.pow(a.y - b.y, 2))]. *)
Definition dist2D (ax ay bx by_ : R) : R :=
  sqrt ((ax - bx) ^ 2 + (ay - by_) ^ 2).

(** The two [setMode] branches on the openness of the hand. *)
Definition enterChaos : R := 0.25.
Definition enterFormed : R := 0.15.

Definition setModeFrom (avgDist : R) (m : Mode) : Mode :=
  if Rgt_dec avgDist enterChaos then chaos
  else if Rlt_dec avgDist enterFormed then formed
  else m.

(** The mean distance of the five finger tips to the wrist; [None] where a
    landmark index is missing (the source would throw there). *)
Definition avgDistOf (landmarks : list Landmark) : option R :=
  match nth_error landmarks 0 with
  | None => None
  | Some wrist =>
      let add_tip := fun (acc : option R) (i : nat) =>
        match acc, nth_error landmarks i with
        | Some a, Some tip =>
            Some (a + dist2D (lm_x tip) (lm_y tip) (lm_x wrist) (lm_y wrist))
        | _, _ => None
        end in
      match fold_left add_tip [4; 8; 12; 16; 20]%nat (Some 0) with
      | Some total => Some (total / 5)
      | None => None
      end
  end.

(** The body of [predictWebcam] once a detection [result] is at hand:
    [landmarks] is [result.landmarks], one list per detected hand. *)
Definition predict (landmarks : list (list Landmark)) (s : AppState)
    : option AppState :=
  match landmarks with
  | hand :: _ =>
      match avgDistOf hand, nth_error hand 0, nth_error hand 4, nth_error hand 8 with
      | Some avgDist, Some wrist, Some thumb, Some index =>
          let pinchDist :=
            dist2D (lm_x thumb) (lm_y thumb) (lm_x index) (lm_y index) in
          Some (mkApp (setModeFrom avgDist (mode s))
                      (Some (1 - lm_x wrist, lm_y wrist))
                      (if Rlt_dec pinchDist 0.05 then true else false))
      | _, _, _, _ => None
      end
  | [] => Some (mkApp (mode s) None false)
  end.

(** The mode after a run of openness readings, oldest first. *)
Definition runMode (signals : list R) (m : Mode) : Mode :=
  fold_left (fun m' a => setModeFrom a m') signals m.

(** ** Polaroids: the focus selector *)

Record Photo : Type := mkPhoto {
  id : nat;
  treeY : R;
  treeAngle : R;
  chaosPos : Vector3.t;
  rotation : Euler;
  ph_scale : R;
  ph_phase : R
}.

(** A child group of [groupRef]: its position and its uniform scale.  The
    orientation of the group is not part of this model. *)
Record Child : Type := mkChild {
  position : Vector3.t;
  c_scale : R
}.

(** The camera of the frame: where it stands, and [v.project(camera)]. *)
Record Camera : Type := mkCamera {
  cam_position : Vector3.t;
  project : Vector3.t -> Vector3.t
}.

(** The [i]-th child is rendered from [photos[i]]: the population is the
    list of photos, each with its child. *)
Definition Population : Type := list (Photo * Child).

(** The sentinel that [closestDist] starts from. *)
Definition closestDist0 : R := 999.

(** Convert HandPosition (0..1) to NDC. *)
Definition handNDC_X (h : R * R) : R := (fst h - 0.5) * 2.
Definition handNDC_Y (h : R * R) : R := - (snd h - 0.5) * 2.

(** The distance of a child to the hand, both in NDC. *)
Definition screenDist (cam : Camera) (h : R * R) (child : Child) : R :=
  let tempV := project cam (position child) in
  dist2D (Vector3.x tempV) (Vector3.y tempV) (handNDC_X h) (handNDC_Y h).

(** The [forEach] that looks for the closest photo: [closestDist] and
    [nextFocusedId] are the two variables it updates. *)
Fixpoint scan (cam : Camera) (h : R * R) (frames : Population)
    (closestDist : R) (nextFocusedId : option nat) : R * option nat :=
  match frames with
  | [] => (closestDist, nextFocusedId)
  | (photo, child) :: rest =>
      let dist := screenDist cam h child in
      if Rlt_dec dist closestDist
      then scan cam h rest dist (Some (id photo))
      else scan cam h rest closestDist nextFocusedId
  end.

(** 1. DETERMINE FOCUSED PHOTO (Closest to hand). *)
Definition nextFocused (cam : Camera) (hand : HandPosition) (frames : Population)
    : option nat :=
  match hand, frames with
  | Some h, _ :: _ => snd (scan cam h frames closestDist0 None)
  | _, _ => None
  end.

(** Lock focus if pinching, otherwise update. *)
Definition lockFocus (pinching : bool) (next focusedId : option nat) : option nat :=
  if negb pinching then next else focusedId.

Definition isSome {A : Type} (o : option A) : bool :=
  match o with Some _ => true | None => false end.

(** [photo.id === activeId && handPosition !== null]. *)
Definition isFocused (photo : Photo) (activeId : option nat) (hand : HandPosition) : bool :=
  match activeId with
  | Some a => Nat.eqb (id photo) a && isSome hand
  | None => false
  end.

Definition isZoomed (photo : Photo) (activeId : option nat) (hand : HandPosition)
    (pinching : bool) : bool :=
  isFocused photo activeId hand && pinching.

(** What one frame of [Polaroids] is given. *)
Record PolaroidInput : Type := mkInput {
  in_mode : Mode;
  in_hand : HandPosition;
  in_pinching : bool;
  in_time : R;
  in_delta : R;
  in_camera : Camera
}.

(** Target calculation: the position and the scale a child moves to, and
    the rate of the move. *)
Definition targetOf (i : PolaroidInput) (activeId : option nat) (photo : Photo)
    : Vector3.t * R * R :=
  let focused := isFocused photo activeId (in_hand i) in
  let zoomed := isZoomed photo activeId (in_hand i) (in_pinching i) in
  let targetPos :=
    if Mode_eqb (in_mode i) formed && negb zoomed then
      let normalizedY :=
        1 - (treeY photo + CONFIG.dimensions.height / 2) / CONFIG.dimensions.height in
      let r := (CONFIG.dimensions.radius - 0.5) * normalizedY + 0.1 in
      Vector3.mk (cos (treeAngle photo) * r) (treeY photo) (sin (treeAngle photo) * r)
    else
      match in_hand i with
      | Some h =>
          if negb zoomed
          then Vector3.applyAxisAngleY (chaosPos photo) ((fst h - 0.5) * PI * 4)
          else chaosPos photo
      | None => chaosPos photo
      end in
  let camPos := cam_position (in_camera i) in
  let viewPos :=
    Vector3.sub camPos
      (Vector3.multiplyScalar
         (Vector3.normalize (Vector3.sub camPos Vector3.zero)) 5) in
  let pos := if zoomed then viewPos else targetPos in
  let scale :=
    if zoomed then 2.0
    else if focused then ph_scale photo * 1.2
    else ph_scale photo in
  (pos, scale, if zoomed then 5.0 else 2.5).

(** Apply Lerps. *)
Definition moveChild (i : PolaroidInput) (activeId : option nat)
    (frame : Photo * Child) : Photo * Child :=
  let '(photo, child) := frame in
  let '(targetPos, targetScaleScalar, rate) := targetOf i activeId photo in
  (photo,
   mkChild (Vector3.lerp (position child) targetPos (in_delta i * rate))
           (MathUtils.lerp (c_scale child) targetScaleScalar (in_delta i * 4.0))).

Record PolaroidsState : Type := mkPolaroids {
  focusedIdRef : option nat;
  frames : Population
}.

(** The frame callback of [Polaroids]; [mounted] is [groupRef.current]. *)
Definition Polaroids_useFrame (mounted : bool) (i : PolaroidInput)
    (s : PolaroidsState) : PolaroidsState :=
  if mounted then
    let nextFocusedId := nextFocused (in_camera i) (in_hand i) (frames s) in
    let activeId := lockFocus (in_pinching i) nextFocusedId (focusedIdRef s) in
    mkPolaroids activeId (map (moveChild i activeId) (frames s))
  else s.

(** A run of frames, oldest first, each with whether the group is mounted. *)
Definition runPolaroids (ticks : list (bool * PolaroidInput)) (s : PolaroidsState)
    : PolaroidsState :=
  fold_left (fun s' t => Polaroids_useFrame (fst t) (snd t) s') ticks s.

(** A perspective camera at the origin that looks down the negative z
    axis, with focal factor [f] on both screen axes: the x and y of
    [v.project(camera)] are [f * x / -z] and [f * y / -z].  The selector
    does not read the projected depth, which is left as it is. *)
Definition pinhole (f : R) : Camera :=
  mkCamera Vector3.zero
    (fun v => Vector3.mk (f * Vector3.x v / - Vector3.z v)
                         (f * Vector3.y v / - Vector3.z v)
                         (Vector3.z v)).

(** ** The layout generators *)

Module Math.
(** [Math.cbrt]: the real cube root. *)
Definition cbrt (x : R) : R :=
  if Rlt_dec 0 x then Rpower x (/ 3)
  else if Rlt_dec x 0 then - Rpower (- x) (/ 3)
  else 0.

(** [Math.pow(x, y)] at a base that is not negative and an exponent
    above zero, which is where the generators call it. *)
Definition pow (x y : R) : R :=
  if Rlt_dec 0 x then Rpower x y else 0.

(** [Math.floor] of a number that is not negative, as an array index. *)
Definition floor (x : R) : nat := Z.to_nat (Int_part x).
End Math.

(** [Math.random()]: the generators read the values of [random] one after
    the other; a computation in [Rand] takes the number of values read so
    far and returns it advanced. *)
Section Generators.

Variable random : nat -> R.

Definition Rand (A : Type) : Type := nat -> A * nat.

Definition ret {A : Type} (a : A) : Rand A := fun n => (a, n).
Definition bind {A B : Type} (c : Rand A) (k : A -> Rand B) : Rand B :=
  fun n => let '(a, n') := c n in k a n'.
Definition draw : Rand R := fun n => (random n, S n).

Notation "x <- c ;; k" := (bind c (fun x => k))
  (at level 61, c at next level, right associativity).

(** A point of the "Galaxy Sphere": radius, then azimuth, then polar
    angle. *)
Definition spherePoint (r theta phi : R) : Vector3.t :=
  Vector3.mk (r * sin phi * cos theta) (r * sin phi * sin theta) (r * cos phi).

(** [1 - (y + height/2) / height]. *)
Definition normalizedYOf (y : R) : R :=
  1 - (y + CONFIG.dimensions.height / 2) / CONFIG.dimensions.height.

(** *** [generateTreeData] *)

Record TreePoint : Type := mkTreePoint {
  tp_chaos : Vector3.t;
  tp_target : Vector3.t;
  tp_size : R;
  tp_random : R
}.

(** The radius of the chaos sphere and the exponent of the cone profile,
    the literals [18] and [0.85] of [generateTreeData]. *)
Definition treeChaosRadius : R := 18.
Definition treeTaper : R := 0.85.

Definition treeRadiusAtY (normalizedY : R) : R :=
  CONFIG.dimensions.radius * Math.pow normalizedY treeTaper.

(** The numbers that one iteration of the loop of [generateTreeData]
    computes. *)
Definition treePointComputed : Rand TreePoint :=
  u_r <- draw ;;
  u_theta <- draw ;;
  u_phi <- draw ;;
  let r := treeChaosRadius * Math.cbrt u_r in
  let theta := u_theta * 2 * PI in
  let phi := acos (2 * u_phi - 1) in
  let chaos := spherePoint r theta phi in
  u_y <- draw ;;
  let y := (u_y - 0.5) * CONFIG.dimensions.height in
  let radiusAtY := treeRadiusAtY (normalizedYOf y) in
  u_spiral <- draw ;;
  let spiralAngle := y * 8.0 + u_spiral * PI * 2 in
  u_volume <- draw ;;
  let volumeR := radiusAtY * sqrt u_volume in
  let tx := cos spiralAngle * volumeR in
  let tz := sin spiralAngle * volumeR in
  u_size <- draw ;;
  u_random <- draw ;;
  ret (mkTreePoint chaos (Vector3.mk tx y tz) (u_size * 0.8 + 0.2) u_random).

(** The four arrays are [Float32Array]s, and a store into one rounds the
    number to the nearest 32-bit float.  The real numbers of this model
    have no rounding of their own, so the rounding is a parameter. *)
Variable fround : R -> R.

Definition fround3 (v : Vector3.t) : Vector3.t :=
  Vector3.mk (fround (Vector3.x v)) (fround (Vector3.y v)) (fround (Vector3.z v)).

(** [chaosPositions.set], [targetPositions.set], [sizes[i] =] and
    [randoms[i] =]. *)
Definition storeTreePoint (p : TreePoint) : TreePoint :=
  mkTreePoint (fround3 (tp_chaos p)) (fround3 (tp_target p))
              (fround (tp_size p)) (fround (tp_random p)).

(** One iteration of the loop of [generateTreeData]: the entries of the
    four arrays at one index. *)
Definition treePoint : Rand TreePoint :=
  p <- treePointComputed ;;
  ret (storeTreePoint p).

Fixpoint repeatRand {A : Type} (count : nat) (c : Rand A) : Rand (list A) :=
  match count with
  | O => ret []
  | S k => a <- c ;; rest <- repeatRand k c ;; ret (a :: rest)
  end.

Definition generateTreeData (count : nat) : list TreePoint :=
  fst (repeatRand count treePoint 0%nat).

(** *** The population of [Ornaments] *)

(** The hex colours that ornaments are made of. *)
Inductive Hex : Type :=
  champagne | gold | silver | redVelvet | lighterRed | roseGold | warmWhite.

(** [new THREE.Color(hex)]. *)
Variable Color : Hex -> Vector3.t.

Definition metalPalette : list Hex := [champagne; gold].
Definition boxPalette : list Hex := [champagne; gold; silver; redVelvet].

(** [palette[Math.floor(u * palette.length)]]; the index is in range
    for a draw in [0, 1). *)
Definition pick (palette : list Hex) (u : R) : Hex :=
  nth (Math.floor (u * INR (length palette))) palette champagne.

Definition ornamentChaosRadius : R := 14.

(** [(CONFIG.dimensions.radius - 0.4) * normalizedY]. *)
Definition ornamentRadiusAtY (normalizedY : R) : R :=
  (CONFIG.dimensions.radius - 0.4) * normalizedY.

(** Type Determination: five assignments in a row, so the last threshold
    that [rand] exceeds wins. *)
Definition typeOf (rand : R) : OrnamentType :=
  let type := bauble in
  let type := if Rgt_dec rand 0.30 then box else type in
  let type := if Rgt_dec rand 0.50 then star else type in
  let type := if Rgt_dec rand 0.55 then bell else type in
  let type := if Rgt_dec rand 0.60 then cane else type in
  let type := if Rgt_dec rand 0.70 then light else type in
  type.

(** One iteration of the loop that fills the six lists. *)
Definition ornament : Rand (OrnamentType * OrnamentData) :=
  u_r <- draw ;;
  u_theta <- draw ;;
  u_phi <- draw ;;
  let r := ornamentChaosRadius * Math.cbrt u_r in
  let theta := u_theta * 2 * PI in
  let phi := acos (2 * u_phi - 1) in
  let chaos := spherePoint r theta phi in
  u_y <- draw ;;
  let y := (u_y - 0.5) * (CONFIG.dimensions.height - 1.5) in
  let radiusAtY := ornamentRadiusAtY (normalizedYOf y) in
  u_angle <- draw ;;
  let angle := u_angle * PI * 2 in
  let target := Vector3.mk (cos angle * radiusAtY) y (sin angle * radiusAtY) in
  rand <- draw ;;
  let type := typeOf rand in
  u_scale <- draw ;;
  u_color <- draw ;;
  u_phase <- draw ;;
  let scale := 0.15 + u_scale * 0.15 in
  let color := pick metalPalette u_color in
  let data := fun (s : R) (c : Hex) =>
    mkOrnament chaos target chaos Vector3.zero s (Color c) (u_phase * PI * 2) in
  match type with
  | bauble => ret (type, data (scale * 1.95) color)
  | box => u <- draw ;; ret (type, data (scale * 1.6) (pick boxPalette u))
  | star => ret (type, data (scale * 1.2) gold)
  | bell => ret (type, data (scale * 1.3) gold)
  | cane =>
      u <- draw ;;
      ret (type, data (scale * 1.4) (if Rgt_dec u 0.5 then lighterRed else roseGold))
  | light => ret (type, data (scale * 0.4) warmWhite)
  end.

Definition ofType (type : OrnamentType) (l : list (OrnamentType * OrnamentData))
    : list OrnamentData :=
  map snd (filter (fun p => OrnamentType_eqb (fst p) type) l).

(** The [useMemo] of [Ornaments]: every item goes to the list of its type,
    in the order of generation. *)
Definition generateOrnaments (count : nat) (rot : Euler) : OrnamentsState :=
  let all := fst (repeatRand count ornament 0%nat) in
  mkOrnaments (ofType bauble all) (ofType box all) (ofType light all)
              (ofType star all) (ofType bell all) (ofType cane all) rot.

(** *** The photos of [Polaroids] *)

Definition photo (i : nat) : Rand Photo :=
  u_y <- draw ;;
  let y := (u_y - 0.5) * (CONFIG.dimensions.height - 2.5) in
  u_angle <- draw ;;
  let angle := u_angle * PI * 2 in
  u_x <- draw ;;
  u_y' <- draw ;;
  u_z <- draw ;;
  u_rot <- draw ;;
  u_scale <- draw ;;
  u_phase <- draw ;;
  ret (mkPhoto i y angle
         (Vector3.mk ((u_x - 0.5) * 20) ((u_y' - 0.5) * 20) ((u_z - 0.5) * 20))
         (mkEuler 0 (- angle + PI / 2) ((u_rot - 0.5) * 0.2))
         (0.9 + u_scale * 0.4)
         (u_phase * 10)).

Fixpoint photosFrom (i count : nat) : Rand (list Photo) :=
  match count with
  | O => ret []
  | S k => p <- photo i ;; rest <- photosFrom (S i) k ;; ret (p :: rest)
  end.

(** [new Array(30).fill(0).map((_, i) => ...)]. *)
Definition photos : list Photo := fst (photosFrom 0 30 0%nat).

End Generators.

(** ** The integrator as the design words it

    The four steps of the design, in its order: pick the destination from
    the global mode, add the directional force to the velocity, add the
    pointer repulsion, damp the velocity, move the position by it. *)

Definition destination (m : Mode) (item : OrnamentData) : Vector3.t :=
  match m with
  | formed => o_target item
  | chaos => o_chaos item
  end.

Definition stepAsDesigned (m : Mode) (delta : R) (mouseVec : Vector3.t)
    (type : OrnamentType) (item : OrnamentData) : OrnamentData :=
  let w := weights type in
  let directional :=
    Vector3.multiplyScalar (Vector3.sub (destination m item) (o_current item))
                           (speed w * delta) in
  let repelled := repulsion (o_current item) mouseVec delta (repulsionWeight w) in
  let velocity :=
    Vector3.multiplyScalar
      (Vector3.add (Vector3.add (o_velocity item) directional) repelled)
      (damping w) in
  mkOrnament (o_chaos item) (o_target item)
             (Vector3.add (o_current item) velocity) velocity
             (o_scale item) (o_color item) (o_phase item).

Definition allMounted : OrnamentRefs := mkRefs true true true true true true.

Definition notEmpty {A : Type} (l : list A) : bool :=
  match l with
  | [] => false
  | _ :: _ => true
  end.

(** A run of frames of [Foliage], oldest first: whether the material is
    mounted, the mode, the clock, the tick length and the pointer of each. *)
Record FoliageFrame : Type := mkFoliageFrame {
  ff_mounted : bool;
  ff_mode : Mode;
  ff_time : R;
  ff_delta : R;
  ff_pointer : Pointer
}.

Definition runFoliage (ticks : list FoliageFrame) (u : Uniforms) : Uniforms :=
  fold_left
    (fun u' f =>
       Foliage_useFrame (ff_mounted f) (ff_mode f) (ff_time f) (ff_delta f)
                        (ff_pointer f) u')
    ticks u.


(** ** The laws of the layout *)

(** The distance of a point to the vertical axis. *)
Definition horizontal (v : Vector3.t) : R :=
  sqrt (Vector3.x v * Vector3.x v + Vector3.z v * Vector3.z v).

(** A value that [Math.random()] may return. *)
Definition unitDraw (u : R) : Prop := 0 <= u < 1.

(** The distance of a point to the axis of the polar angle, which is the
    z axis. *)
Definition planar (v : Vector3.t) : R :=
  sqrt (Vector3.x v * Vector3.x v + Vector3.y v * Vector3.y v).

(** The point [p] is drawn inside the sphere of radius [radius] from the
    three draws [u_r], [u_theta], [u_phi]: its distance to the centre is the
    radius times the cube root of [u_r], so that the cube of the distance
    is [u_r] scaled to the cube of the radius (the volume within that
    distance is uniform); its height over that distance is [u_phi] scaled to
    [-1, 1); and its azimuth is [u_theta] scaled to a turn. *)
Definition sphereLaw (radius u_r u_theta u_phi : R) (p : Vector3.t) : Prop :=
  Vector3.length p = radius * Math.cbrt u_r /\
  Vector3.length p ^ 3 = radius ^ 3 * u_r /\
  Vector3.length p < radius /\
  Vector3.z p = Vector3.length p * (2 * u_phi - 1) /\
  Vector3.x p = planar p * cos (u_theta * 2 * PI) /\
  Vector3.y p = planar p * sin (u_theta * 2 * PI).

(** The point [p] is drawn inside the tree from the three draws [u_y],
    [u_spiral], [u_volume]: its height is [u_y] scaled to the height of the
    tree; at its normalized height [h] the cone is [radius * h ^ taper]
    wide, with [taper] below 1, which is no less than the straight cone;
    the distance of the point to the axis is that width times the square
    root of [u_volume], so that its square is [u_volume] scaled to the
    square of the width (the area within that distance is uniform); and its
    angle about the axis is [u_spiral] scaled to a turn, shifted by eight
    times the height. *)
Definition coneVolumeLaw (u_y u_spiral u_volume : R) (p : Vector3.t) : Prop :=
  let h := normalizedYOf (Vector3.y p) in
  let angle := Vector3.y p * 8.0 + u_spiral * PI * 2 in
  Vector3.y p = (u_y - 0.5) * CONFIG.dimensions.height /\
  h = 1 - u_y /\
  treeRadiusAtY h = CONFIG.dimensions.radius * Rpower h treeTaper /\
  treeTaper < 1 /\
  CONFIG.dimensions.radius * h <= treeRadiusAtY h /\
  horizontal p = treeRadiusAtY h * sqrt u_volume /\
  horizontal p ^ 2 = treeRadiusAtY h ^ 2 * u_volume /\
  horizontal p <= treeRadiusAtY h /\
  Vector3.x p = horizontal p * cos angle /\
  Vector3.z p = horizontal p * sin angle.

(** The point [p] is set on the surface of the cone of the ornaments from
    the two draws [u_y], [u_angle]: the cone is [(radius - 0.4) * h] wide at
    the normalized height [h], the point is at that distance from the axis,
    and its angle about the axis is [u_angle] scaled to a turn. *)
Definition coneSurfaceLaw (u_y u_angle : R) (p : Vector3.t) : Prop :=
  let h := normalizedYOf (Vector3.y p) in
  Vector3.y p = (u_y - 0.5) * (CONFIG.dimensions.height - 1.5) /\
  0 < h < 1 /\
  ornamentRadiusAtY h = (CONFIG.dimensions.radius - 0.4) * h /\
  horizontal p = ornamentRadiusAtY h /\
  Vector3.x p = horizontal p * cos (u_angle * PI * 2) /\
  Vector3.z p = horizontal p * sin (u_angle * PI * 2).

(** The number of values of [random] read when the [i]-th of the runs of
    [c] that [repeatRand] makes starts, the first run starting at [n]. *)
Fixpoint readBefore {A : Type} (c : Rand A) (n i : nat) : nat :=
  match i with
  | O => n
  | S j => readBefore c (snd (c n)) j
  end.

(** What the bounds on the stored foliage use of the rounding to 32-bit
    floats: it keeps the order, it leaves 0, 1, 3.5 and 4.5 and their
    opposites, which are 32-bit floats, as they are, and the float nearest
    to 0.2 is above it. *)
Definition float32Rounding (fround : R -> R) : Prop :=
  (forall x y : R, x <= y -> fround x <= fround y) /\
  fround 0 = 0 /\ fround 1 = 1 /\
  fround 3.5 = 3.5 /\ fround (- 3.5) = - 3.5 /\
  fround 4.5 = 4.5 /\ fround (- 4.5) = - 4.5 /\
  0.2 <= fround 0.2.

(** Every ornament of the six lists. *)
Definition allOrnaments (s : OrnamentsState) : list OrnamentData :=
  baubles s ++ boxes s ++ lights s ++ stars s ++ bells s ++ canes s.

(** ** Runs, shifts and the energy of an ornament *)

(** A run of ticks on one ornament, oldest first: the length of each tick
    and where the pointer is in it. *)
Definition integrateRun (isFormed : bool) (type : OrnamentType)
    (ticks : list (R * Vector3.t)) (item : OrnamentData) : OrnamentData :=
  fold_left (fun it t => integrate isFormed (fst t) (snd t) type it) ticks item.

(** The ornament moved as a whole by [d]: its two anchors and its position. *)
Definition translate (d : Vector3.t) (item : OrnamentData) : OrnamentData :=
  mkOrnament (Vector3.add (o_chaos item) d) (Vector3.add (o_target item) d)
             (Vector3.add (o_current item) d) (o_velocity item)
             (o_scale item) (o_color item) (o_phase item).

(** The trace of one tick on the pair (offset to the destination, velocity):
    [1 + damping - damping * speed * delta]. *)
Definition tickTrace (type : OrnamentType) (delta : R) : R :=
  1 + damping (weights type) - damping (weights type) * speed (weights type) * delta.

(** On one axis, with [e] the offset to the destination and [v] the
    velocity, so that [e - v] is the offset one tick earlier. *)
Definition axisEnergy (t d e v : R) : R :=
  e * e - t * e * (e - v) + d * (e - v) * (e - v).

Definition energy (isFormed : bool) (delta : R) (type : OrnamentType)
    (item : OrnamentData) : R :=
  let dest := if isFormed then o_target item else o_chaos item in
  let t := tickTrace type delta in
  let d := damping (weights type) in
  axisEnergy t d (Vector3.x (o_current item) - Vector3.x dest) (Vector3.x (o_velocity item))
  + axisEnergy t d (Vector3.y (o_current item) - Vector3.y dest) (Vector3.y (o_velocity item))
  + axisEnergy t d (Vector3.z (o_current item) - Vector3.z dest) (Vector3.z (o_velocity item)).

(** How far one update of an item turns the shared [dummy] about y, per
    unit of [delta]. *)
Definition yRate (type : OrnamentType) : R :=
  match type with
  | bell => 0
  | cane => 0.5
  | _ => 1
  end.

(** ** Runs of the foliage and parts of its shader *)

(** The share of the gap to the target progress that a run of ticks
    leaves: the product of [1 - 0.8 * delta] over the ticks. *)
Definition progressFactor (ticks : list FoliageFrame) : R :=
  fold_right (fun f acc => (1 - ff_delta f * 0.8) * acc) 1 ticks.

(** [finalPos] of the vertex shader after the "Jitter/Breathing Animation"
    and before the pointer is looked at. *)
Definition breathed (u : Uniforms) (aChaosPos aTargetPos : Vector3.t)
    (aRandom : R) : Vector3.t :=
  let p0 := GLSL.mix aChaosPos aTargetPos (uProgress u) in
  let breath := sin (uTime u * 1.5 + Vector3.y p0 * 0.5 + aRandom * 10.0) in
  Vector3.add p0
    (Vector3.multiplyScalar (GLSL.normalize p0) (breath * 0.03 * uProgress u)).

(** ** The top star *)

(** What the frame callback of [TopStar] writes: the turn of the group
    about y and its scale. *)
Record TopStarState : Type := mkTopStar {
  star_rotation_y : R;
  star_scale : Vector3.t
}.

Definition starTargetScale (m : Mode) : R :=
  if Mode_eqb m formed then 0.85 else 0.01.

(** The frame callback of [TopStar]; [mounted] is [ref.current]. *)
Definition TopStar_useFrame (mounted : bool) (m : Mode) (elapsedTime : R)
    (s : TopStarState) : TopStarState :=
  if mounted then
    let targetScale := starTargetScale m in
    mkTopStar (elapsedTime * 0.5)
              (Vector3.lerp (star_scale s)
                            (Vector3.mk targetScale targetScale targetScale) 0.05)
  else s.

(** A run of mounted frames in one mode, given by their clock readings. *)
Definition runTopStar (m : Mode) (times : list R) (s : TopStarState) : TopStarState :=
  fold_left (fun s' t => TopStar_useFrame true m t s') times s.

(** ** The camera nudge of [Scene] *)

(** [maxPolarAngle] of the orbit controls. *)
Definition maxPolarAngle : R := PI / 1.5.

(** The frame callback of [Scene]: the angles it hands to
    [setAzimuthalAngle] and [setPolarAngle], given the two angles the
    controls report, or nothing where it calls neither.  [controls] is
    [controlsRef.current]. *)
Definition Scene_useFrame (hand : HandPosition) (controls pinching : bool)
    (azimuthalAngle polarAngle : R) : option (R * R) :=
  match hand with
  | Some h =>
      if controls && negb pinching then
        let targetAzimuth := (fst h - 0.5) * 2.0 in
        let targetPolar := PI / 2 - (snd h - 0.5) in
        Some (MathUtils.lerp azimuthalAngle targetAzimuth 0.05,
              MathUtils.lerp polarAngle targetPolar 0.05)
      else None
  | None => None
  end.

(** ** The images of the photos and the photo manager *)

Delimit Scope string_scope with string.
Local Open Scope string_scope.

Definition DEFAULT_IMAGES : list String.string :=
  ["https://picsum.photos/seed/christmas1/400/500";
   "https://picsum.photos/seed/christmas2/400/500";
   "https://picsum.photos/seed/christmas3/400/500";
   "https://picsum.photos/seed/christmas4/400/500";
   "https://picsum.photos/seed/christmas5/400/500";
   "https://picsum.photos/seed/christmas6/400/500";
   "https://picsum.photos/seed/christmas7/400/500";
   "https://picsum.photos/seed/christmas8/400/500"].

Local Close Scope string_scope.

(** [customImages.length > 0 ? customImages : DEFAULT_IMAGES]. *)
Definition activeImages (customImages : list String.string) : list String.string :=
  match customImages with
  | [] => DEFAULT_IMAGES
  | _ :: _ => customImages
  end.

(** [activeImages[i % activeImages.length]], the [url] of the photo [i];
    [None] is [undefined]. *)
Definition photoUrl (customImages : list String.string) (i : nat)
    : option String.string :=
  nth_error (activeImages customImages)
            (i mod length (activeImages customImages)).

(** The urls of the 30 photos, in the order of the photos. *)
Definition photoUrls (customImages : list String.string)
    : list (option String.string) :=
  map (photoUrl customImages) (seq 0 30).

(** [l.filter((_, i) => keep(i))], the index counted from [i]. *)
Fixpoint filterFrom {A : Type} (keep : nat -> bool) (i : nat) (l : list A) : list A :=
  match l with
  | [] => []
  | a :: rest =>
      if keep i then a :: filterFrom keep (S i) rest
      else filterFrom keep (S i) rest
  end.

(** [images.filter((_, i) => i !== idx)]. *)
Definition removeImage (idx : nat) (images : list String.string) : list String.string :=
  filterFrom (fun i => negb (Nat.eqb i idx)) 0 images.

(** A string as a condition: the empty one is false. *)
Definition truthy (s : String.string) : bool :=
  match s with
  | String.EmptyString => false
  | String.String _ _ => true
  end.

(** The state of [PhotoManager] and, of [App], the images it applies to. *)
Record Gallery : Type := mkGallery {
  isOpen : bool;
  images : list String.string;
  inputUrl : String.string;
  customImages : list String.string
}.

(** The [useState] defaults. *)
Definition initialGallery : Gallery := mkGallery false [] String.EmptyString [].

(** What the user can do to the photo manager.  A chosen file stands for
    the object url that is made for it; [None] is a file input without a
    list of files. *)
Inductive GalleryEvent : Type :=
  | OpenPanel
  | ClosePanel
  | FileUpload (files : option (list String.string))
  | InputChange (value : String.string)
  | UrlSubmit
  | RemoveImage (idx : nat)
  | ApplyChanges.

Definition handleFileUpload (files : option (list String.string)) (g : Gallery)
    : Gallery :=
  match files with
  | Some (f :: fs) =>
      mkGallery (isOpen g) (images g ++ f :: fs) (inputUrl g) (customImages g)
  | _ => g
  end.

Definition handleUrlSubmit (g : Gallery) : Gallery :=
  if truthy (inputUrl g) then
    mkGallery (isOpen g) (images g ++ [inputUrl g]) String.EmptyString (customImages g)
  else g.

(** [onUpdateImages(images); setIsOpen(false)], with [setCustomImages] for
    [onUpdateImages]. *)
Definition applyChanges (g : Gallery) : Gallery :=
  mkGallery false (images g) (inputUrl g) (images g).

Definition galleryStep (g : Gallery) (e : GalleryEvent) : Gallery :=
  match e with
  | OpenPanel => mkGallery true (images g) (inputUrl g) (customImages g)
  | ClosePanel => mkGallery false (images g) (inputUrl g) (customImages g)
  | FileUpload files => handleFileUpload files g
  | InputChange value => mkGallery (isOpen g) (images g) value (customImages g)
  | UrlSubmit => handleUrlSubmit g
  | RemoveImage idx =>
      mkGallery (isOpen g) (removeImage idx (images g)) (inputUrl g) (customImages g)
  | ApplyChanges => applyChanges g
  end.

Definition runGallery (events : list GalleryEvent) (g : Gallery) : Gallery :=
  fold_left galleryStep events g.

Definition isApply (e : GalleryEvent) : bool :=
  match e with
  | ApplyChanges => true
  | _ => false
  end.

(** ** The fragment shader and the size of a point *)

(** GLSL [clamp(x, lo, hi)] is [min(max(x, lo), hi)]. *)
Definition clamp (x lo hi : R) : R := Rmin (Rmax x lo) hi.

(** GLSL [smoothstep(edge0, edge1, x)]. *)
Definition smoothstep (edge0 edge1 x : R) : R :=
  let t := clamp ((x - edge0) / (edge1 - edge0)) 0 1 in
  t * t * (3 - 2 * t).

Definition vec3 (s : R) : Vector3.t := Vector3.mk s s s.

(** The fragment shader of [LuxuryFoliageMaterial]: the colour and the
    alpha of [gl_FragColor], or nothing for a discarded fragment. *)
Definition fragment (uColor uColor2 : Vector3.t) (time : R)
    (gl_PointCoord : R * R) (vDistToMouse vRandom : R) : option (Vector3.t * R) :=
  (* Circle shape *)
  let r := dist2D (fst gl_PointCoord) (snd gl_PointCoord) 0.5 0.5 in
  if Rgt_dec r 0.5 then None else
  let rim := smoothstep 0.35 0.5 r in
  let baseColor := Vector3.add uColor (vec3 (vRandom * 0.1)) in
  (* Mix Emerald center with Gold Rim *)
  let c1 := GLSL.mix baseColor uColor2 (rim * 0.8) in
  (* Mouse Interaction Glow *)
  let c2 :=
    if Rlt_dec vDistToMouse 3.5 then
      let mixVal := 1.0 - smoothstep 0.0 3.5 vDistToMouse in
      GLSL.mix c1 uColor2 mixVal
    else c1 in
  (* High Frequency Twinkle *)
  let sparkle := sin (time * 8.0 + vRandom * 100.0) * 0.5 + 0.5 in
  let c3 := Vector3.add c2 (vec3 (sparkle * 0.15)) in
  (* Alpha fade for soft edges *)
  let alpha := 1.0 - smoothstep 0.45 0.5 r in
  Some (c3, alpha).

(** [gl_PointSize] of the vertex shader, from the depth [mvZ] of the vertex
    in view space and its distance [dist] to the pointer. *)
Definition pointSize (aSize uPixelRatio mvZ dist time : R) : R :=
  let size := (aSize * uPixelRatio * 40.0) * (1.0 / - mvZ) in
  (* Hover enlargement *)
  if Rlt_dec dist 2.0 then size * (1.5 + sin (time * 15.0) * 0.5) else size.

(** * Properties *)

(** ** Vectors *)

Lemma vec_eq (a b : Vector3.t) :
  Vector3.x a = Vector3.x b -> Vector3.y a = Vector3.y b ->
  Vector3.z a = Vector3.z b -> a = b.
Proof.
  destruct a, b; simpl; intros; subst; reflexivity.
Qed.

Ltac vec := apply vec_eq; simpl; try lra.

(* Decimal literals, spelled as quotients of integers for [field]. *)
Ltac undecimal := unfold Q2R; cbn [QArith_base.Qnum QArith_base.Qden].

Lemma add_zero_r (a : Vector3.t) : Vector3.add a Vector3.zero = a.
Proof. vec. Qed.

Lemma multiplyScalar_0 (a : Vector3.t) : Vector3.multiplyScalar a 0 = Vector3.zero.
Proof. vec. Qed.

Lemma zero_multiplyScalar (s : R) :
  Vector3.multiplyScalar Vector3.zero s = Vector3.zero.
Proof. vec. Qed.

Lemma lengthSq_nonneg (a : Vector3.t) : 0 <= Vector3.lengthSq a.
Proof. unfold Vector3.lengthSq. nra. Qed.

Lemma length_nonneg (a : Vector3.t) : 0 <= Vector3.length a.
Proof. apply sqrt_pos. Qed.

Lemma length_zero : Vector3.length Vector3.zero = 0.
Proof.
  unfold Vector3.length, Vector3.lengthSq; simpl.
  replace (0 * 0 + 0 * 0 + 0 * 0) with 0 by lra. apply sqrt_0.
Qed.

Lemma length_sub (a b : Vector3.t) :
  Vector3.length (Vector3.sub a b) = Vector3.distanceTo a b.
Proof. reflexivity. Qed.

Lemma distanceTo_nonneg (a b : Vector3.t) : 0 <= Vector3.distanceTo a b.
Proof. apply sqrt_pos. Qed.

Lemma distanceTo_self (a : Vector3.t) : Vector3.distanceTo a a = 0.
Proof.
  unfold Vector3.distanceTo, Vector3.distanceToSquared; simpl.
  replace ((Vector3.x a - Vector3.x a) * (Vector3.x a - Vector3.x a) +
           (Vector3.y a - Vector3.y a) * (Vector3.y a - Vector3.y a) +
           (Vector3.z a - Vector3.z a) * (Vector3.z a - Vector3.z a)) with 0 by lra.
  apply sqrt_0.
Qed.

Lemma length_multiplyScalar (a : Vector3.t) (s : R) :
  0 <= s ->
  Vector3.length (Vector3.multiplyScalar a s) = Vector3.length a * s.
Proof.
  intros Hs. unfold Vector3.length, Vector3.lengthSq; simpl.
  replace (Vector3.x a * s * (Vector3.x a * s) + Vector3.y a * s * (Vector3.y a * s) +
           Vector3.z a * s * (Vector3.z a * s))
    with (Vector3.lengthSq a * (s * s)) by (unfold Vector3.lengthSq; lra).
  rewrite sqrt_mult by (try apply lengthSq_nonneg; nra).
  rewrite sqrt_square by assumption. reflexivity.
Qed.

(** The divisor of [normalize] is never zero. *)
Lemma lengthOr1_pos (a : Vector3.t) : 0 < Vector3.lengthOr1 a.
Proof.
  unfold Vector3.lengthOr1. destruct (Req_dec_T (Vector3.length a) 0) as [E | N].
  - lra.
  - pose proof (length_nonneg a). lra.
Qed.

Lemma lengthOr1_nonzero (a : Vector3.t) (d : R) :
  Vector3.length a = d -> d <> 0 -> Vector3.lengthOr1 a = d.
Proof.
  intros <- N. unfold Vector3.lengthOr1.
  destruct (Req_dec_T (Vector3.length a) 0); [contradiction | reflexivity].
Qed.

Lemma normalize_zero_length (a : Vector3.t) :
  Vector3.length a = 0 -> Vector3.normalize a = Vector3.zero.
Proof.
  intros E.
  assert (Hsq : Vector3.lengthSq a = 0).
  { apply sqrt_eq_0; [apply lengthSq_nonneg | exact E]. }
  unfold Vector3.lengthSq in Hsq.
  assert (Vector3.x a = 0 /\ Vector3.y a = 0 /\ Vector3.z a = 0) as (X & Y & Z) by nra.
  unfold Vector3.normalize, Vector3.divideScalar.
  apply vec_eq; simpl; rewrite ?X, ?Y, ?Z; lra.
Qed.

Lemma length_normalize (a : Vector3.t) :
  Vector3.length a <> 0 -> Vector3.length (Vector3.normalize a) = 1.
Proof.
  intros N. unfold Vector3.normalize, Vector3.divideScalar.
  rewrite (lengthOr1_nonzero a _ eq_refl N).
  pose proof (length_nonneg a) as P.
  rewrite length_multiplyScalar.
  - field. exact N.
  - apply Rlt_le. apply Rdiv_lt_0_compat; lra.
Qed.

Lemma length_normalize_le (a : Vector3.t) :
  Vector3.length (Vector3.normalize a) <= 1.
Proof.
  destruct (Req_dec_T (Vector3.length a) 0) as [E | N].
  - rewrite (normalize_zero_length a E), length_zero. lra.
  - rewrite (length_normalize a N). lra.
Qed.

(** ** The ornament integrator *)

Lemma repulsion_far (p m : Vector3.t) (delta w : R) :
  interactionRadius <= Vector3.distanceTo p m ->
  repulsion p m delta w = Vector3.zero.
Proof.
  intros H. unfold repulsion.
  destruct (Rlt_dec (Vector3.distanceTo p m) interactionRadius); [lra | reflexivity].
Qed.

Lemma repulsion_near (p m : Vector3.t) (delta w : R) :
  Vector3.distanceTo p m < interactionRadius ->
  repulsion p m delta w =
  Vector3.multiplyScalar (Vector3.normalize (Vector3.sub p m))
    ((interactionRadius - Vector3.distanceTo p m) * 15.0 * delta * w).
Proof.
  intros H. unfold repulsion.
  destruct (Rlt_dec (Vector3.distanceTo p m) interactionRadius); [reflexivity | lra].
Qed.

Lemma repulsion_coincident (p : Vector3.t) (delta w : R) :
  repulsion p p delta w = Vector3.zero.
Proof.
  rewrite repulsion_near.
  - rewrite normalize_zero_length.
    + apply zero_multiplyScalar.
    + rewrite length_sub. apply distanceTo_self.
  - rewrite distanceTo_self. unfold interactionRadius. lra.
Qed.

(** The velocity and the position that [integrate] leaves in an item. *)
Lemma integrate_velocity (isFormed : bool) (delta : R) (mouseVec : Vector3.t)
    (type : OrnamentType) (item : OrnamentData) :
  o_velocity (integrate isFormed delta mouseVec type item) =
  Vector3.multiplyScalar
    (Vector3.add
       (Vector3.add (o_velocity item)
          (force (if isFormed then o_target item else o_chaos item)
                 (o_current item) (speed (weights type)) delta))
       (repulsion (o_current item) mouseVec delta (repulsionWeight (weights type))))
    (damping (weights type)).
Proof.
  unfold integrate, repulsion; simpl.
  destruct (Rlt_dec (Vector3.distanceTo (o_current item) mouseVec) interactionRadius).
  - reflexivity.
  - rewrite add_zero_r. reflexivity.
Qed.

Lemma integrate_current (isFormed : bool) (delta : R) (mouseVec : Vector3.t)
    (type : OrnamentType) (item : OrnamentData) :
  o_current (integrate isFormed delta mouseVec type item) =
  Vector3.add (o_current item)
              (o_velocity (integrate isFormed delta mouseVec type item)).
Proof. reflexivity. Qed.

Lemma forEachItem_items (isFormed : bool) (time delta : R) (mouseVec : Vector3.t)
    (type : OrnamentType) (list : list OrnamentData) :
  forall rot,
    lf_items (forEachItem isFormed time delta mouseVec type rot list) =
    map (integrate isFormed delta mouseVec type) list.
Proof.
  induction list as [| item rest IH]; intros rot; simpl.
  - reflexivity.
  - rewrite IH. reflexivity.
Qed.

Lemma forEachItem_poses (isFormed : bool) (time delta : R) (mouseVec : Vector3.t)
    (type : OrnamentType) (list : list OrnamentData) :
  forall rot,
    map p_position (lf_poses (forEachItem isFormed time delta mouseVec type rot list)) =
    map (fun item => o_current (integrate isFormed delta mouseVec type item)) list.
Proof.
  induction list as [| item rest IH]; intros rot; simpl.
  - reflexivity.
  - rewrite IH. reflexivity.
Qed.

Lemma integrate_as_designed (m : Mode) (delta : R) (mouseVec : Vector3.t)
    (type : OrnamentType) (item : OrnamentData) :
  integrate (Mode_eqb m formed) delta mouseVec type item =
  stepAsDesigned m delta mouseVec type item.
Proof.
  assert (D : (if Mode_eqb m formed then o_target item else o_chaos item) =
              destination m item) by (destruct m; reflexivity).
  unfold stepAsDesigned.
  rewrite <- D.
  pose proof (integrate_velocity (Mode_eqb m formed) delta mouseVec type item) as V.
  unfold force in V. rewrite <- V.
  reflexivity.
Qed.

Lemma forEachItem_as_designed (m : Mode) (time delta : R) (mouseVec : Vector3.t)
    (type : OrnamentType) (rot : Euler) (list : list OrnamentData) :
  lf_items (forEachItem (Mode_eqb m formed) time delta mouseVec type rot list) =
  map (stepAsDesigned m delta mouseVec type) list.
Proof.
  rewrite forEachItem_items.
  apply map_ext. intros item. apply integrate_as_designed.
Qed.

Lemma forEachItem_colours (isFormed : bool) (time delta : R) (mouseVec : Vector3.t)
    (type : OrnamentType) (list : list OrnamentData) :
  forall rot,
    lf_colours (forEachItem isFormed time delta mouseVec type rot list) =
    map (twinkle isFormed time type) list.
Proof.
  induction list as [| item rest IH]; intros rot; simpl.
  - reflexivity.
  - rewrite IH. reflexivity.
Qed.

(** A loop writes a colour exactly when it runs over lights, in formed mode,
    and there is one. *)
Lemma afterSetColorAt_twinkle (instanceColor isFormed : bool) (time : R)
    (type : OrnamentType) (list : list OrnamentData) :
  afterSetColorAt instanceColor (map (twinkle isFormed time type) list) =
  instanceColor || (OrnamentType_eqb type light && isFormed && notEmpty list).
Proof.
  unfold afterSetColorAt, twinkle. f_equal.
  destruct (OrnamentType_eqb type light && isFormed).
  - destruct list; reflexivity.
  - simpl. induction list as [| item rest IH]; [reflexivity | exact IH].
Qed.

(** What a mounted call leaves, and whether it returns. *)
Lemma updateList_mounted (instanceColor isFormed : bool) (time delta : R)
    (mouseVec : Vector3.t) (type : OrnamentType) (rot : Euler)
    (list : list OrnamentData) :
  let call := updateList true instanceColor isFormed time delta mouseVec type rot list in
  fst (leaves call) = forEachItem isFormed time delta mouseVec type rot list /\
  snd (leaves call) =
    instanceColor || (OrnamentType_eqb type light && isFormed && notEmpty list) /\
  returns call =
    negb (OrnamentType_eqb type light) || instanceColor || (isFormed && notEmpty list).
Proof.
  unfold updateList. cbv zeta.
  rewrite forEachItem_colours, afterSetColorAt_twinkle.
  destruct (OrnamentType_eqb type light), instanceColor, isFormed, (notEmpty list);
    simpl; repeat split.
Qed.

(** The frame callback with its six meshes mounted: it returns when the
    mesh of the lights has an [instanceColor] or gets one in the frame; it
    throws otherwise, after the lights, and the three lists after them are
    as they were. *)
Lemma Ornaments_useFrame_mounted (colours : OrnamentColours) (m : Mode)
    (time delta : R) (ptr : Pointer) (s : OrnamentsState) :
  let isFormed := Mode_eqb m formed in
  let each := forEachItem isFormed time delta (mouseVecOf ptr) in
  let f1 := each bauble (dummy s) (baubles s) in
  let f2 := each box (lf_dummy f1) (boxes s) in
  let f3 := each light (lf_dummy f2) (lights s) in
  let f4 := each star (lf_dummy f3) (stars s) in
  let f5 := each bell (lf_dummy f4) (bells s) in
  let f6 := each cane (lf_dummy f5) (canes s) in
  let frame := Ornaments_useFrame allMounted colours m time delta ptr s in
  let ok := lightColour colours || (isFormed && notEmpty (lights s)) in
  returns frame = ok /\
  fst (leaves frame) =
    (if ok
     then mkOrnaments (lf_items f1) (lf_items f2) (lf_items f3)
                      (lf_items f4) (lf_items f5) (lf_items f6) (lf_dummy f6)
     else mkOrnaments (lf_items f1) (lf_items f2) (lf_items f3)
                      (stars s) (bells s) (canes s) (lf_dummy f3)).
Proof.
  cbv zeta.
  unfold Ornaments_useFrame, updateListOf, updateList, allMounted.
  cbn [refOf baubleRef boxRef lightRef starRef bellRef caneRef
       OrnamentType_eqb andThen fst snd listOf colourOf setColour setList
       baubles boxes lights stars bells canes dummy
       baubleColour boxColour lightColour starColour bellColour caneColour].
  rewrite (forEachItem_colours _ _ _ _ light), afterSetColorAt_twinkle.
  cbn [OrnamentType_eqb andb].
  destruct (lightColour colours || (Mode_eqb m formed && notEmpty (lights s)));
    cbn [andThen returns leaves fst snd refOf baubleRef boxRef lightRef starRef
         bellRef caneRef OrnamentType_eqb listOf colourOf setColour setList
         baubles boxes lights stars bells canes dummy
         baubleColour boxColour lightColour starColour bellColour caneColour];
    split; reflexivity.
Qed.

(** C1. In one tick of [Ornaments] every ornament that the frame callback
    reaches is advanced by the steps of the design in their order:
    destination by the global mode, directional force, pointer repulsion,
    damping, move.  The new position is the old one plus damping * (old
    velocity + directional force + repulsion), and it is the position of
    the emitted pose.  The callback reaches the six lists when it returns,
    which it does when the mesh of the lights has its instance colours, or
    gets them in the tick (formed mode and a light); when it has none the
    callback throws after the lights, and the stars, bells and canes are
    left as they were. *)
Theorem C1_integrator_order :
  forall (m : Mode) (time delta : R) (ptr : Pointer) (colours : OrnamentColours)
         (s : OrnamentsState),
    let frame := Ornaments_useFrame allMounted colours m time delta ptr s in
    let s' := fst (leaves frame) in
    let step := stepAsDesigned m delta (mouseVecOf ptr) in
    (baubles s' = map (step bauble) (baubles s) /\
     boxes s' = map (step box) (boxes s) /\
     lights s' = map (step light) (lights s)) /\
    (returns frame = true ->
     stars s' = map (step star) (stars s) /\
     bells s' = map (step bell) (bells s) /\
     canes s' = map (step cane) (canes s)) /\
    (returns frame = false ->
     stars s' = stars s /\ bells s' = bells s /\ canes s' = canes s) /\
    (returns frame = true <->
     lightColour colours = true \/ (m = formed /\ lights s <> [])) /\
    (forall (type : OrnamentType) (instanceColor : bool) (rot : Euler)
            (l : list OrnamentData),
        let call := updateList true instanceColor (Mode_eqb m formed) time delta
                               (mouseVecOf ptr) type rot l in
        lf_items (fst (leaves call)) = map (step type) l /\
        map p_position (lf_poses (fst (leaves call))) =
        map (fun item => o_current (step type item)) l) /\
    (forall (type : OrnamentType) (item : OrnamentData),
        let w := weights type in
        let f := force (destination m item) (o_current item) (speed w) delta in
        let r := repulsion (o_current item) (mouseVecOf ptr) delta (repulsionWeight w) in
        let item' := step type item in
        Vector3.x (o_current item') =
          Vector3.x (o_current item) +
          damping w * (Vector3.x (o_velocity item) + Vector3.x f + Vector3.x r) /\
        Vector3.y (o_current item') =
          Vector3.y (o_current item) +
          damping w * (Vector3.y (o_velocity item) + Vector3.y f + Vector3.y r) /\
        Vector3.z (o_current item') =
          Vector3.z (o_current item) +
          damping w * (Vector3.z (o_velocity item) + Vector3.z f + Vector3.z r)).
Proof.
  intros m time delta ptr colours s frame s' step.
  destruct (Ornaments_useFrame_mounted colours m time delta ptr s) as [Hr Hs].
  cbv zeta in Hr, Hs. fold frame in Hr, Hs. fold s' in Hs.
  split; [| split; [| split; [| split; [| split]]]].
  - rewrite Hs.
    destruct (lightColour colours || (Mode_eqb m formed && notEmpty (lights s)));
      cbn [baubles boxes lights]; repeat split; apply forEachItem_as_designed.
  - intros R. rewrite Hr in R. rewrite Hs, R.
    cbn [stars bells canes]. repeat split; apply forEachItem_as_designed.
  - intros R. rewrite Hr in R. rewrite Hs, R.
    cbn [stars bells canes]. repeat split.
  - rewrite Hr. destruct (lightColour colours), m, (lights s); simpl; split.
    all: try (intros _; first [ left; reflexivity
                             | right; split; [reflexivity | discriminate] ]).
    all: try discriminate.
    all: intros [H | [H1 H2]]; try discriminate; try congruence.
  - intros type instanceColor rot l call.
    destruct (updateList_mounted instanceColor (Mode_eqb m formed) time delta
                (mouseVecOf ptr) type rot l) as (F & _ & _).
    cbv zeta in F. fold call in F. rewrite F. split.
    + apply forEachItem_as_designed.
    + rewrite forEachItem_poses.
      apply map_ext. intros item. unfold step.
      rewrite integrate_as_designed. reflexivity.
  - intros type item w f r item'.
    unfold item', step, stepAsDesigned, f, r, w, force; simpl.
    repeat split; lra.
Qed.

Lemma normalize_nonzero (a : Vector3.t) (d : R) :
  Vector3.length a = d -> d <> 0 ->
  Vector3.normalize a = Vector3.multiplyScalar a (1 / d).
Proof.
  intros E N. unfold Vector3.normalize, Vector3.divideScalar.
  rewrite (lengthOr1_nonzero a d E N). reflexivity.
Qed.

Lemma multiplyScalar_twice (a : Vector3.t) (s u : R) :
  Vector3.multiplyScalar (Vector3.multiplyScalar a s) u =
  Vector3.multiplyScalar a (s * u).
Proof. vec. Qed.

Lemma sqrt_of_square (r q : R) : 0 <= r -> q = r * r -> sqrt q = r.
Proof. intros P ->. apply sqrt_square. exact P. Qed.

Lemma vec_x_neq (a b : Vector3.t) : Vector3.x a <> Vector3.x b -> a <> b.
Proof. intros N E. apply N. rewrite E. reflexivity. Qed.

(** The in-range contribution, written on the offset [p - m]: a multiple
    of it that is not negative for a [delta] and a weight that are not. *)
Lemma repulsion_in_range (p m : Vector3.t) (delta w : R) :
  0 < Vector3.distanceTo p m < interactionRadius ->
  repulsion p m delta w =
  Vector3.multiplyScalar (Vector3.sub p m)
    ((interactionRadius - Vector3.distanceTo p m) / interactionRadius
     * (52.5 * delta * w) / Vector3.distanceTo p m).
Proof.
  intros [P L]. rewrite repulsion_near by exact L.
  rewrite (normalize_nonzero _ (Vector3.distanceTo p m)) by (rewrite ?length_sub; lra).
  rewrite multiplyScalar_twice. f_equal.
  unfold interactionRadius. undecimal. field. lra.
Qed.

Lemma repulsion_length_in_range (p m : Vector3.t) (delta w : R) :
  0 < Vector3.distanceTo p m < interactionRadius ->
  0 <= delta -> 0 <= w ->
  Vector3.length (repulsion p m delta w) =
  (interactionRadius - Vector3.distanceTo p m) / interactionRadius * (52.5 * delta * w).
Proof.
  intros [P L] Hd Hw. rewrite repulsion_in_range by (split; assumption).
  unfold interactionRadius in *.
  assert (K : 0 <= (3.5 - Vector3.distanceTo p m) / 3.5 * (52.5 * delta * w)).
  { apply Rmult_le_pos; [| nra].
    apply Rmult_le_pos; [lra |]. apply Rlt_le, Rinv_0_lt_compat. lra. }
  rewrite length_multiplyScalar.
  - rewrite length_sub. undecimal. field. lra.
  - apply Rmult_le_pos; [exact K |]. apply Rlt_le, Rinv_0_lt_compat. exact P.
Qed.

(** No contribution is longer than the one a vanishing distance tends to. *)
Lemma repulsion_bounded (p m : Vector3.t) (delta w : R) :
  0 <= delta -> 0 <= w ->
  Vector3.length (repulsion p m delta w) <= interactionRadius * 15.0 * delta * w.
Proof.
  intros Hd Hw.
  assert (B : 0 <= interactionRadius * 15.0 * delta * w).
  { unfold interactionRadius. nra. }
  pose proof (distanceTo_nonneg p m) as P.
  destruct (Rlt_dec (Vector3.distanceTo p m) interactionRadius) as [L | G].
  - destruct (Req_dec_T (Vector3.distanceTo p m) 0) as [E | N].
    + rewrite repulsion_near by exact L.
      rewrite normalize_zero_length by (rewrite length_sub; exact E).
      rewrite zero_multiplyScalar, length_zero. exact B.
    + rewrite repulsion_length_in_range by (try split; try assumption; lra).
      unfold interactionRadius in *. nra.
  - rewrite repulsion_far by lra. rewrite length_zero. exact B.
Qed.

Lemma shaderOffset_far (p m : Vector3.t) (time : R) :
  interactionRadius <= Vector3.distanceTo p m ->
  shaderOffset p m time = Vector3.zero.
Proof.
  intros H. unfold shaderOffset.
  destruct (Rlt_dec (Vector3.distanceTo p m) interactionRadius); [lra | reflexivity].
Qed.

Lemma shaderOffset_in_range (p m : Vector3.t) (time : R) :
  0 < Vector3.distanceTo p m < interactionRadius ->
  shaderOffset p m time =
  Vector3.add
    (Vector3.multiplyScalar (Vector3.sub p m)
       ((interactionRadius - Vector3.distanceTo p m) / interactionRadius
        * 2.5 / Vector3.distanceTo p m))
    (Vector3.mk 0 (sin (Vector3.x p * 20.0 + time * 5.0) * 0.2) 0).
Proof.
  intros [P L]. unfold shaderOffset, offsetInRange.
  destruct (Rlt_dec (Vector3.distanceTo p m) interactionRadius); [| lra].
  f_equal. unfold GLSL.normalize. rewrite length_sub.
  rewrite !multiplyScalar_twice. f_equal.
  unfold interactionRadius. undecimal. field. lra.
Qed.

(** C2 (as amended). At or beyond the radius the contribution is the zero
    vector, on the CPU path and in the vertex shader.  Strictly inside it,
    and off the pointer, the CPU contribution is the offset from the
    pointer to the item times a factor that is not negative, of magnitude
    (radius - d) / radius * (52.5 * delta * weight): it depends on the tick
    length and on the weight of the category besides the two positions.  On
    the pointer itself it is the zero vector.  The shader adds to the same
    radial law, with strength 2.5, a vertical term that depends on time. *)
Theorem C2_repulsion_field :
  forall (p m : Vector3.t) (delta w time : R),
    let d := Vector3.distanceTo p m in
    (interactionRadius <= d ->
       repulsion p m delta w = Vector3.zero /\
       shaderOffset p m time = Vector3.zero) /\
    (0 < d < interactionRadius ->
       repulsion p m delta w =
         Vector3.multiplyScalar (Vector3.sub p m)
           ((interactionRadius - d) / interactionRadius * (52.5 * delta * w) / d) /\
       (0 <= delta -> 0 <= w ->
          0 <= (interactionRadius - d) / interactionRadius * (52.5 * delta * w) / d /\
          Vector3.length (repulsion p m delta w) =
            (interactionRadius - d) / interactionRadius * (52.5 * delta * w)) /\
       shaderOffset p m time =
         Vector3.add
           (Vector3.multiplyScalar (Vector3.sub p m)
              ((interactionRadius - d) / interactionRadius * 2.5 / d))
           (Vector3.mk 0 (sin (Vector3.x p * 20.0 + time * 5.0) * 0.2) 0)) /\
    (d = 0 -> repulsion p m delta w = Vector3.zero).
Proof.
  intros p m delta w time d. unfold d. split; [| split].
  - intros H. split; [apply repulsion_far | apply shaderOffset_far]; exact H.
  - intros H. split; [| split].
    + apply repulsion_in_range. exact H.
    + intros Hd Hw. split.
      * destruct H as [P L]. unfold interactionRadius in *.
        apply Rmult_le_pos; [| apply Rlt_le, Rinv_0_lt_compat; exact P].
        apply Rmult_le_pos; [| nra].
        apply Rmult_le_pos; [lra |]. apply Rlt_le, Rinv_0_lt_compat. lra.
      * apply repulsion_length_in_range; assumption.
    + apply shaderOffset_in_range. exact H.
  - intros E. rewrite repulsion_near by (rewrite E; unfold interactionRadius; lra).
    rewrite normalize_zero_length by (rewrite length_sub; exact E).
    apply zero_multiplyScalar.
Qed.

Lemma distanceTo_axis (a : R) :
  0 <= a -> Vector3.distanceTo (Vector3.mk a 0 0) Vector3.zero = a.
Proof.
  intros P. unfold Vector3.distanceTo, Vector3.distanceToSquared; simpl.
  apply sqrt_of_square; [exact P | lra].
Qed.

Lemma repulsion_axis (delta w : R) :
  repulsion (Vector3.mk 1 0 0) Vector3.zero delta w = Vector3.mk (37.5 * delta * w) 0 0.
Proof.
  rewrite repulsion_in_range by (rewrite distanceTo_axis; unfold interactionRadius; lra).
  rewrite distanceTo_axis by lra. unfold interactionRadius. vec.
Qed.

Lemma length_axis (a : R) : 0 <= a -> Vector3.length (Vector3.mk a 0 0) = a.
Proof.
  intros P. unfold Vector3.length, Vector3.lengthSq; simpl.
  apply sqrt_of_square; [exact P | lra].
Qed.

Lemma C2_repulsion_field_witness :
  repulsion (Vector3.mk 4 0 0) Vector3.zero 1 1 = Vector3.zero /\
  Vector3.length (repulsion (Vector3.mk 1 0 0) Vector3.zero 1 1) =
    (interactionRadius - 1) / interactionRadius * (52.5 * 1 * 1) /\
  repulsion Vector3.zero Vector3.zero 1 1 = Vector3.zero.
Proof.
  split; [| split].
  - pose proof (C2_repulsion_field (Vector3.mk 4 0 0) Vector3.zero 1 1 0) as H.
    cbv zeta in H. rewrite (distanceTo_axis 4) in H by lra.
    destruct H as (H & _ & _). apply H. unfold interactionRadius. lra.
  - pose proof (C2_repulsion_field (Vector3.mk 1 0 0) Vector3.zero 1 1 0) as H.
    cbv zeta in H. rewrite (distanceTo_axis 1) in H by lra.
    destruct H as (_ & H & _).
    destruct H as (_ & H & _); [unfold interactionRadius; lra |].
    apply H; lra.
  - pose proof (C2_repulsion_field Vector3.zero Vector3.zero 1 1 0) as H.
    cbv zeta in H. destruct H as (_ & _ & H). apply H. apply distanceTo_self.
Defined.

(** C2 (as stated) fails.  On the pointer itself the contribution has
    magnitude 0 although radius - d is 3.5 there, while at distance 1 it has
    magnitude 37.5: no strength constant fits both.  And at a fixed pair of
    positions the contribution changes with the tick length and with the
    weight of the category. *)
Lemma C2_repulsion_counterexample :
  Vector3.distanceTo Vector3.zero Vector3.zero = 0 /\
  Vector3.length (repulsion Vector3.zero Vector3.zero 1 1) = 0 /\
  Vector3.distanceTo (Vector3.mk 1 0 0) Vector3.zero = 1 /\
  Vector3.length (repulsion (Vector3.mk 1 0 0) Vector3.zero 1 1) = 37.5 /\
  ~ (exists K : R,
        Vector3.length (repulsion Vector3.zero Vector3.zero 1 1) =
          K * (interactionRadius - Vector3.distanceTo Vector3.zero Vector3.zero) /\
        Vector3.length (repulsion (Vector3.mk 1 0 0) Vector3.zero 1 1) =
          K * (interactionRadius - Vector3.distanceTo (Vector3.mk 1 0 0) Vector3.zero)) /\
  repulsion (Vector3.mk 1 0 0) Vector3.zero 2 1 <>
    repulsion (Vector3.mk 1 0 0) Vector3.zero 1 1 /\
  repulsion (Vector3.mk 1 0 0) Vector3.zero 1 0.2 <>
    repulsion (Vector3.mk 1 0 0) Vector3.zero 1 1.
Proof.
  assert (L0 : Vector3.length (repulsion Vector3.zero Vector3.zero 1 1) = 0).
  { rewrite repulsion_coincident. apply length_zero. }
  assert (L1 : Vector3.length (repulsion (Vector3.mk 1 0 0) Vector3.zero 1 1) = 37.5).
  { rewrite repulsion_axis. rewrite length_axis; lra. }
  repeat split.
  - apply distanceTo_self.
  - exact L0.
  - apply distanceTo_axis. lra.
  - exact L1.
  - intros (K & H0 & H1). rewrite L0 in H0. rewrite L1 in H1.
    rewrite distanceTo_self in H0. rewrite distanceTo_axis in H1 by lra.
    unfold interactionRadius in *. lra.
  - rewrite !repulsion_axis. apply vec_x_neq. simpl. lra.
  - rewrite !repulsion_axis. apply vec_x_neq. simpl. lra.
Qed.

(** C8 (as amended). On the pointer itself (distance 0) the divisor of
    [normalize] is 1 and the contribution is the zero vector, of magnitude
    0; at any position its magnitude is at most
    radius * 15 * delta * weight. *)
Theorem C8_coincident_pointer :
  forall (p m : Vector3.t) (delta w : R),
    0 <= delta -> 0 <= w ->
    Vector3.distanceTo p p = 0 /\
    Vector3.lengthOr1 (Vector3.sub p p) = 1 /\
    repulsion p p delta w = Vector3.zero /\
    Vector3.length (repulsion p p delta w) = 0 /\
    Vector3.length (repulsion p m delta w) <= interactionRadius * 15.0 * delta * w.
Proof.
  intros p m delta w Hd Hw. repeat split.
  - apply distanceTo_self.
  - unfold Vector3.lengthOr1. rewrite length_sub, distanceTo_self.
    destruct (Req_dec_T 0 0); [reflexivity | contradiction].
  - apply repulsion_coincident.
  - rewrite repulsion_coincident. apply length_zero.
  - apply repulsion_bounded; assumption.
Qed.

Lemma C8_coincident_pointer_witness :
  repulsion (Vector3.mk 1 2 3) (Vector3.mk 1 2 3) 1 1 = Vector3.zero /\
  Vector3.length (repulsion (Vector3.mk 1 2 3) (Vector3.mk 4 5 6) 1 1)
    <= interactionRadius * 15.0 * 1 * 1.
Proof.
  pose proof (C8_coincident_pointer (Vector3.mk 1 2 3) (Vector3.mk 4 5 6) 1 1) as H.
  destruct H as (_ & _ & H0 & _ & HB); [lra | lra |].
  split; [exact H0 | exact HB].
Defined.

(** C8 (as stated) fails: with the pointer on the item, a tick of length 1
    and a weight of 1, the contribution is the zero vector and not one of
    magnitude 3.5 * 15 = 52.5; an item at distance 1 of the pointer gets a
    longer one, so that it is not the longest either. *)
Lemma C8_coincident_counterexample :
  Vector3.distanceTo (Vector3.mk 1 2 3) (Vector3.mk 1 2 3) = 0 /\
  repulsion (Vector3.mk 1 2 3) (Vector3.mk 1 2 3) 1 1 = Vector3.zero /\
  Vector3.length (repulsion (Vector3.mk 1 2 3) (Vector3.mk 1 2 3) 1 1) = 0 /\
  Vector3.length (repulsion (Vector3.mk 1 2 3) (Vector3.mk 1 2 3) 1 1)
    <> (interactionRadius - 0) * 15.0 * 1 * 1 /\
  Vector3.length (repulsion (Vector3.mk 1 2 3) (Vector3.mk 1 2 3) 1 1)
    < Vector3.length (repulsion (Vector3.mk 1 0 0) Vector3.zero 1 1).
Proof.
  assert (L : Vector3.length (repulsion (Vector3.mk 1 2 3) (Vector3.mk 1 2 3) 1 1) = 0).
  { rewrite repulsion_coincident. apply length_zero. }
  repeat split.
  - apply distanceTo_self.
  - apply repulsion_coincident.
  - exact L.
  - rewrite L. unfold interactionRadius. lra.
  - rewrite L, repulsion_axis, length_axis; lra.
Qed.

(** ** A tick of length zero *)

Lemma force_zero_delta (dest current : Vector3.t) (spd : R) :
  force dest current spd 0 = Vector3.zero.
Proof. unfold force. vec. Qed.

Lemma repulsion_zero_delta (p m : Vector3.t) (w : R) :
  repulsion p m 0 w = Vector3.zero.
Proof.
  unfold repulsion.
  destruct (Rlt_dec (Vector3.distanceTo p m) interactionRadius); [| reflexivity].
  apply vec_eq; simpl; ring.
Qed.

Lemma integrate_zero_delta_velocity (isFormed : bool) (mouseVec : Vector3.t)
    (type : OrnamentType) (item : OrnamentData) :
  o_velocity (integrate isFormed 0 mouseVec type item) =
  Vector3.multiplyScalar (o_velocity item) (damping (weights type)).
Proof.
  rewrite integrate_velocity, force_zero_delta, repulsion_zero_delta.
  rewrite !add_zero_r. reflexivity.
Qed.

(** C9 (as amended). A tick of length zero adds no force and no repulsion
    and divides by nothing that is zero, but it still damps and moves: the
    velocity is multiplied by the damping of the category and the position,
    which is also the emitted one, advances by the damped velocity.  An item
    at rest is left as it was. *)
Theorem C9_zero_delta_tick :
  forall (isFormed : bool) (time : R) (mouseVec : Vector3.t)
         (type : OrnamentType) (rot : Euler) (item : OrnamentData),
    let item' := integrate isFormed 0 mouseVec type item in
    let pose := snd (fst (fst (updateItem isFormed time 0 mouseVec type rot item))) in
    o_velocity item' =
      Vector3.multiplyScalar (o_velocity item) (damping (weights type)) /\
    o_current item' =
      Vector3.add (o_current item)
        (Vector3.multiplyScalar (o_velocity item) (damping (weights type))) /\
    p_position pose = o_current item' /\
    0 < Vector3.lengthOr1 (Vector3.sub (o_current item) mouseVec) /\
    (o_velocity item = Vector3.zero -> item' = item).
Proof.
  intros isFormed time mouseVec type rot item item' pose.
  assert (V : o_velocity item' =
              Vector3.multiplyScalar (o_velocity item) (damping (weights type))).
  { apply integrate_zero_delta_velocity. }
  assert (C : o_current item' =
              Vector3.add (o_current item)
                (Vector3.multiplyScalar (o_velocity item) (damping (weights type)))).
  { unfold item'. rewrite integrate_current. fold item'. rewrite V. reflexivity. }
  split; [exact V |]. split; [exact C |]. split; [reflexivity |].
  split; [apply lengthOr1_pos |].
  intros Z.
  assert (V0 : o_velocity item' = o_velocity item).
  { rewrite V, Z. apply zero_multiplyScalar. }
  assert (C0 : o_current item' = o_current item).
  { rewrite C, Z, zero_multiplyScalar. apply add_zero_r. }
  assert (E : item' =
              mkOrnament (o_chaos item) (o_target item) (o_current item')
                         (o_velocity item') (o_scale item) (o_color item)
                         (o_phase item)) by reflexivity.
  rewrite E, V0, C0. destruct item; reflexivity.
Qed.

Lemma C9_zero_delta_tick_witness :
  integrate true 0 (Vector3.mk 1 0 0) bauble
    (mkOrnament Vector3.zero (Vector3.mk 0 5 0) (Vector3.mk 2 0 0) Vector3.zero
                1 Vector3.zero 0)
  = mkOrnament Vector3.zero (Vector3.mk 0 5 0) (Vector3.mk 2 0 0) Vector3.zero
               1 Vector3.zero 0.
Proof.
  apply (C9_zero_delta_tick true 0 (Vector3.mk 1 0 0) bauble (mkEuler 0 0 0)).
  reflexivity.
Defined.

(** C9 (as stated) fails: a bauble that moves at velocity (1, 0, 0), with
    the pointer out of range, is left by a tick of length zero with the
    velocity (0.9, 0, 0) and the position moved by as much. *)
Lemma C9_zero_delta_counterexample :
  o_velocity
    (integrate true 0 (Vector3.mk 4 0 0) bauble
       (mkOrnament Vector3.zero Vector3.zero Vector3.zero (Vector3.mk 1 0 0)
                   1 Vector3.zero 0))
  = Vector3.mk 0.9 0 0 /\
  o_current
    (integrate true 0 (Vector3.mk 4 0 0) bauble
       (mkOrnament Vector3.zero Vector3.zero Vector3.zero (Vector3.mk 1 0 0)
                   1 Vector3.zero 0))
  = Vector3.mk 0.9 0 0 /\
  integrate true 0 (Vector3.mk 4 0 0) bauble
    (mkOrnament Vector3.zero Vector3.zero Vector3.zero (Vector3.mk 1 0 0)
                1 Vector3.zero 0)
  <> mkOrnament Vector3.zero Vector3.zero Vector3.zero (Vector3.mk 1 0 0)
                1 Vector3.zero 0.
Proof.
  assert (V : o_velocity
    (integrate true 0 (Vector3.mk 4 0 0) bauble
       (mkOrnament Vector3.zero Vector3.zero Vector3.zero (Vector3.mk 1 0 0)
                   1 Vector3.zero 0)) = Vector3.mk 0.9 0 0).
  { rewrite integrate_zero_delta_velocity. vec. }
  split; [exact V |]. split.
  - rewrite integrate_current, V. vec.
  - intros E. rewrite E in V. simpl in V.
    apply (f_equal Vector3.x) in V. simpl in V. lra.
Qed.

(** ** The foliage progress *)

Lemma stepProgress_bounds (m : Mode) (delta progress : R) :
  0 <= progress <= 1 -> 0 <= delta <= 1.25 ->
  0 <= stepProgress m delta progress <= 1.
Proof.
  intros [P0 P1] [D0 D1].
  unfold stepProgress, MathUtils.lerp, targetProgress.
  destruct (Mode_eqb m formed); split; nra.
Qed.

(** C10 (as amended). Starting from a progress in [0,1] (the material
    starts at 0), every run of ticks whose lengths lie between 0 and 1.25,
    where the blend factor 0.8 * delta is at most 1, leaves the progress in
    [0,1], whatever the modes of the ticks are. *)
Theorem C10_progress_in_unit_interval :
  forall (ticks : list FoliageFrame) (u : Uniforms),
    0 <= uProgress u <= 1 ->
    Forall (fun f => 0 <= ff_delta f <= 1.25) ticks ->
    0 <= uProgress (runFoliage ticks u) <= 1.
Proof.
  unfold runFoliage.
  induction ticks as [| f rest IH]; intros u Hu Hall; simpl.
  - exact Hu.
  - inversion Hall as [| ? ? Hf Hrest]; subst.
    apply IH; [| exact Hrest].
    unfold Foliage_useFrame. destruct (ff_mounted f); simpl.
    + apply stepProgress_bounds; assumption.
    + exact Hu.
Qed.

Lemma C10_progress_witness :
  0 <= uProgress
         (runFoliage
            [mkFoliageFrame true formed 0 1 (mkPointer 0 0 1 1);
             mkFoliageFrame true chaos 1 0.5 (mkPointer 0 0 1 1)]
            initialUniforms) <= 1.
Proof.
  apply C10_progress_in_unit_interval.
  - simpl. lra.
  - repeat constructor; simpl; lra.
Defined.

(** C10 (as stated) fails: from the initial progress 0, one tick of two
    seconds in formed mode gives 1.6. *)
Lemma C10_progress_counterexample :
  uProgress initialUniforms = 0 /\
  uProgress (Foliage_useFrame true formed 2 2 (mkPointer 0 0 1 1) initialUniforms) = 1.6 /\
  1 < uProgress (Foliage_useFrame true formed 2 2 (mkPointer 0 0 1 1) initialUniforms).
Proof.
  unfold Foliage_useFrame, stepProgress, MathUtils.lerp, targetProgress; simpl.
  repeat split; lra.
Qed.

(** ** The mode controller *)

Lemma setModeFrom_above (a : R) (m : Mode) :
  a > enterChaos -> setModeFrom a m = chaos.
Proof.
  intros H. unfold setModeFrom. destruct (Rgt_dec a enterChaos); [reflexivity | lra].
Qed.

Lemma setModeFrom_below (a : R) (m : Mode) :
  a < enterFormed -> setModeFrom a m = formed.
Proof.
  intros H. unfold setModeFrom, enterChaos, enterFormed in *.
  destruct (Rgt_dec a 0.25); [lra |].
  destruct (Rlt_dec a 0.15); [reflexivity | lra].
Qed.

Lemma setModeFrom_dead_band (a : R) (m : Mode) :
  enterFormed <= a <= enterChaos -> setModeFrom a m = m.
Proof.
  intros H. unfold setModeFrom, enterChaos, enterFormed in *.
  destruct (Rgt_dec a 0.25); [lra |].
  destruct (Rlt_dec a 0.15); [lra | reflexivity].
Qed.

Lemma runMode_dead_band (signals : list R) :
  forall m, Forall (fun a => enterFormed <= a <= enterChaos) signals ->
            runMode signals m = m.
Proof.
  unfold runMode.
  induction signals as [| a rest IH]; intros m Hall; simpl.
  - reflexivity.
  - inversion Hall as [| ? ? Ha Hrest]; subst.
    rewrite setModeFrom_dead_band by exact Ha. apply IH. exact Hrest.
Qed.

Lemma Forall_firstn {A : Type} (P : A -> Prop) (n : nat) (l : list A) :
  Forall P l -> Forall P (firstn n l).
Proof.
  revert l. induction n as [| n IH]; intros l H; simpl.
  - constructor.
  - destruct l as [| a rest]; [constructor |].
    inversion H; subst. constructor; [assumption | apply IH; assumption].
Qed.

Lemma predict_mode (hand : list Landmark) (rest : list (list Landmark))
    (s : AppState) (avgDist : R) :
  avgDistOf hand = Some avgDist ->
  exists s', predict (hand :: rest) s = Some s' /\
             mode s' = setModeFrom avgDist (mode s).
Proof.
  intros H. unfold predict. rewrite H.
  unfold avgDistOf in H.
  destruct (nth_error hand 0) as [wrist |]; [| discriminate].
  cbn [fold_left] in H.
  destruct (nth_error hand 4) as [thumb |]; [| discriminate].
  destruct (nth_error hand 8) as [index |]; [| discriminate].
  eexists. split; reflexivity.
Qed.

(** C3. The mode starts as formed.  A reading above 0.25 sets it to chaos,
    one below 0.15 sets it to formed, one in between, the two thresholds
    included, leaves it as it is; so no run of readings between 0.16 and
    0.24 changes the mode at any point of the run.  [predictWebcam] applies
    this rule to the openness of a detected hand, and leaves the mode alone
    when no hand is detected. *)
Theorem C3_mode_hysteresis :
  mode initialApp = formed /\
  enterChaos = 0.25 /\ enterFormed = 0.15 /\
  (forall (a : R) (m : Mode), a > enterChaos -> setModeFrom a m = chaos) /\
  (forall (a : R) (m : Mode), a < enterFormed -> setModeFrom a m = formed) /\
  (forall (a : R) (m : Mode),
      enterFormed <= a <= enterChaos -> setModeFrom a m = m) /\
  (forall (signals : list R) (m : Mode) (n : nat),
      Forall (fun a => 0.16 <= a <= 0.24) signals ->
      runMode (firstn n signals) m = m) /\
  (forall (hand : list Landmark) (rest : list (list Landmark))
          (s : AppState) (avgDist : R),
      avgDistOf hand = Some avgDist ->
      exists s', predict (hand :: rest) s = Some s' /\
                 mode s' = setModeFrom avgDist (mode s)) /\
  (forall s : AppState,
      exists s', predict [] s = Some s' /\ mode s' = mode s).
Proof.
  split; [reflexivity |]. split; [reflexivity |]. split; [reflexivity |].
  split; [exact setModeFrom_above |].
  split; [exact setModeFrom_below |].
  split; [exact setModeFrom_dead_band |].
  split; [| split].
  - intros signals m n Hall. apply runMode_dead_band.
    apply Forall_firstn.
    eapply Forall_impl; [| exact Hall].
    intros a Ha. unfold enterFormed, enterChaos. simpl in Ha. lra.
  - exact predict_mode.
  - intros s. eexists. split; reflexivity.
Qed.

Lemma C3_mode_hysteresis_witness :
  runMode [0.16; 0.24; 0.16; 0.24] chaos = chaos /\
  runMode [0.16; 0.24; 0.16; 0.24] formed = formed /\
  setModeFrom 0.3 formed = chaos /\
  setModeFrom 0.1 chaos = formed.
Proof.
  destruct C3_mode_hysteresis as (_ & _ & _ & Hc & Hf & _ & Hrun & _).
  assert (B : Forall (fun a => 0.16 <= a <= 0.24) [0.16; 0.24; 0.16; 0.24]).
  { repeat constructor; lra. }
  split; [exact (Hrun _ chaos 4%nat B) |].
  split; [exact (Hrun _ formed 4%nat B) |].
  split; [apply Hc | apply Hf]; unfold enterChaos, enterFormed; lra.
Defined.

(** ** The focus selector *)

Section Scan.

Variable cam : Camera.
Variable h : R * R.

Local Abbreviation dist f := (screenDist cam h (snd f)).



End Scan.

Lemma useFrame_not_pinching (i : PolaroidInput) (s : PolaroidsState) :
  in_pinching i = false ->
  focusedIdRef (Polaroids_useFrame true i s) =
  nextFocused (in_camera i) (in_hand i) (frames s).
Proof. intros P. unfold Polaroids_useFrame, lockFocus. rewrite P. reflexivity. Qed.

Lemma useFrame_pinching (mounted : bool) (i : PolaroidInput) (s : PolaroidsState) :
  in_pinching i = true ->
  focusedIdRef (Polaroids_useFrame mounted i s) = focusedIdRef s.
Proof.
  intros P. unfold Polaroids_useFrame, lockFocus. rewrite P.
  destruct mounted; reflexivity.
Qed.






Lemma runPolaroids_pinching (ticks : list (bool * PolaroidInput)) :
  forall s,
    Forall (fun t => in_pinching (snd t) = true) ticks ->
    focusedIdRef (runPolaroids ticks s) = focusedIdRef s.
Proof.
  unfold runPolaroids.
  induction ticks as [| t rest IH]; intros s Hall; simpl.
  - reflexivity.
  - inversion Hall as [| ? ? Ht Hrest]; subst.
    rewrite IH by exact Hrest.
    apply useFrame_pinching. exact Ht.
Qed.

(** C6. Over any run of frames in which the pinch signal is true, whatever
    the hand position, the camera and the positions of the children are in
    each of them, the focused id is after every frame of the run the one it
    was before the run.  It is assigned again only by a frame in which the
    pinch signal is false. *)
Theorem C6_lock_persistence :
  forall (ticks : list (bool * PolaroidInput)) (s : PolaroidsState),
    Forall (fun t => in_pinching (snd t) = true) ticks ->
    (forall n : nat,
        focusedIdRef (runPolaroids (firstn n ticks) s) = focusedIdRef s) /\
    (forall i : PolaroidInput,
        in_pinching i = false ->
        focusedIdRef (Polaroids_useFrame true i (runPolaroids ticks s)) =
        nextFocused (in_camera i) (in_hand i) (frames (runPolaroids ticks s))).
Proof.
  intros ticks s Hall. split.
  - intros n. apply runPolaroids_pinching. apply Forall_firstn. exact Hall.
  - intros i Hp. apply useFrame_not_pinching. exact Hp.
Qed.

Lemma C6_lock_persistence_witness :
  focusedIdRef
    (runPolaroids
       [(true, mkInput formed (Some (0.5, 0.5)) true 0 0.1 (pinhole 1));
        (true, mkInput chaos (Some (0.9, 0.1)) true 0.1 0.1 (pinhole 1));
        (true, mkInput chaos None true 0.2 0.1 (pinhole 1))]
       (mkPolaroids (Some 1%nat)
          [(mkPhoto 0 0 0 Vector3.zero (mkEuler 0 0 0) 1 0,
            mkChild (Vector3.mk 0 0 (-1)) 1);
           (mkPhoto 1 0 0 Vector3.zero (mkEuler 0 0 0) 1 0,
            mkChild (Vector3.mk 1 0 (-1)) 1)]))
  = Some 1%nat.
Proof.
  refine (proj1 (C6_lock_persistence
            [(true, mkInput formed (Some (0.5, 0.5)) true 0 0.1 (pinhole 1));
             (true, mkInput chaos (Some (0.9, 0.1)) true 0.1 0.1 (pinhole 1));
             (true, mkInput chaos None true 0.2 0.1 (pinhole 1))]
            (mkPolaroids (Some 1%nat)
               [(mkPhoto 0 0 0 Vector3.zero (mkEuler 0 0 0) 1 0,
                 mkChild (Vector3.mk 0 0 (-1)) 1);
                (mkPhoto 1 0 0 Vector3.zero (mkEuler 0 0 0) 1 0,
                 mkChild (Vector3.mk 1 0 (-1)) 1)])
            _) 3%nat).
  repeat constructor.
Defined.

Lemma isFocused_no_hand (photo : Photo) (activeId : option nat) :
  isFocused photo activeId None = false.
Proof.
  unfold isFocused. destruct activeId; [apply andb_false_r | reflexivity].
Qed.




(** ** The layout generators *)

Lemma cbrt_cube (u : R) : 0 <= u -> Math.cbrt u ^ 3 = u.
Proof.
  intros P. unfold Math.cbrt.
  destruct (Rlt_dec 0 u) as [L | N].
  - rewrite <- (Rpower_pow 3) by apply exp_pos.
    rewrite Rpower_mult.
    replace (/ 3 * INR 3) with 1 by (simpl; field).
    apply Rpower_1. exact L.
  - destruct (Rlt_dec u 0); [lra |].
    assert (u = 0) by lra. subst. simpl. lra.
Qed.

Lemma cbrt_nonneg (u : R) : 0 <= u -> 0 <= Math.cbrt u.
Proof.
  intros P. unfold Math.cbrt.
  destruct (Rlt_dec 0 u) as [L | N].
  - apply Rlt_le. apply exp_pos.
  - destruct (Rlt_dec u 0); lra.
Qed.

Lemma cbrt_below_1 (u : R) : 0 <= u < 1 -> Math.cbrt u < 1.
Proof.
  intros [P L].
  pose proof (cbrt_cube u P) as C. pose proof (cbrt_nonneg u P) as N.
  destruct (Rlt_dec (Math.cbrt u) 1) as [Y | G]; [exact Y |].
  exfalso. simpl in C. nra.
Qed.

Lemma spherePoint_length (r theta phi : R) :
  0 <= r -> Vector3.length (spherePoint r theta phi) = r.
Proof.
  intros P. unfold Vector3.length, Vector3.lengthSq, spherePoint; simpl.
  apply sqrt_of_square; [exact P |].
  pose proof (sin2_cos2 theta) as T. pose proof (sin2_cos2 phi) as F.
  unfold Rsqr in T, F.
  transitivity (r * r * (sin phi * sin phi * (sin theta * sin theta + cos theta * cos theta)
                         + cos phi * cos phi)); [ring |].
  rewrite T, Rmult_1_r, F. ring.
Qed.

Lemma spherePoint_planar (r theta phi : R) :
  0 <= r -> 0 <= sin phi -> planar (spherePoint r theta phi) = r * sin phi.
Proof.
  intros P Q. unfold planar, spherePoint; simpl.
  apply sqrt_of_square; [apply Rmult_le_pos; assumption |].
  pose proof (sin2_cos2 theta) as T. unfold Rsqr in T.
  transitivity (r * sin phi * (r * sin phi)
                * (sin theta * sin theta + cos theta * cos theta)); [ring |].
  rewrite T. ring.
Qed.

Lemma sphereLaw_spherePoint (radius u_r u_theta u_phi : R) :
  0 < radius -> unitDraw u_r -> unitDraw u_theta -> unitDraw u_phi ->
  sphereLaw radius u_r u_theta u_phi
    (spherePoint (radius * Math.cbrt u_r) (u_theta * 2 * PI) (acos (2 * u_phi - 1))).
Proof.
  intros HR Hr Ht Hp. unfold unitDraw in *.
  pose proof (cbrt_nonneg u_r (proj1 Hr)) as N.
  pose proof (cbrt_below_1 u_r Hr) as B.
  assert (P : 0 <= radius * Math.cbrt u_r) by nra.
  assert (L : Vector3.length
                (spherePoint (radius * Math.cbrt u_r) (u_theta * 2 * PI)
                             (acos (2 * u_phi - 1)))
              = radius * Math.cbrt u_r).
  { apply spherePoint_length. exact P. }
  assert (S : 0 <= sin (acos (2 * u_phi - 1))).
  { pose proof (acos_bound (2 * u_phi - 1)) as [A0 A1].
    apply sin_ge_0; assumption. }
  unfold sphereLaw.
  rewrite (spherePoint_planar _ _ _ P S), L.
  split; [reflexivity |].
  split; [rewrite Rpow_mult_distr, cbrt_cube by lra; reflexivity |].
  split; [nra |].
  split; [simpl; rewrite cos_acos by lra; reflexivity |].
  split; reflexivity.
Qed.

Lemma horizontal_polar (a v y : R) :
  0 <= v -> horizontal (Vector3.mk (cos a * v) y (sin a * v)) = v.
Proof.
  intros P. unfold horizontal; simpl.
  apply sqrt_of_square; [exact P |].
  pose proof (sin2_cos2 a) as T. unfold Rsqr in T.
  transitivity (v * v * (sin a * sin a + cos a * cos a)); [ring |].
  rewrite T. ring.
Qed.

(** Below 1 an exponent under 1 widens: the cone bulges over the straight
    one. *)
Lemma Rpower_bulge (h e : R) : 0 < h <= 1 -> e <= 1 -> h <= Rpower h e.
Proof.
  intros [P L] E.
  assert (Hln : ln h <= 0).
  { destruct (Req_dec_T h 1) as [-> | N]; [rewrite ln_1; lra |].
    rewrite <- ln_1. apply Rlt_le, ln_increasing; lra. }
  unfold Rpower.
  rewrite <- (exp_ln h P) at 1.
  destruct (Req_dec_T (ln h) (e * ln h)) as [Q | Q]; [rewrite <- Q; lra |].
  apply Rlt_le, exp_increasing. nra.
Qed.

Lemma Rpower_bulge_strict (h e : R) : 0 < h < 1 -> e < 1 -> h < Rpower h e.
Proof.
  intros [P L] E.
  assert (Hln : ln h < 0).
  { rewrite <- ln_1. apply ln_increasing; lra. }
  unfold Rpower.
  rewrite <- (exp_ln h P) at 1.
  apply exp_increasing. nra.
Qed.

Lemma repeatRand_In {A : Type} (c : Rand A) (count : nat) :
  forall (n : nat) (a : A),
    In a (fst (repeatRand count c n)) -> exists k : nat, a = fst (c k).
Proof.
  induction count as [| count IH]; intros n a H; simpl in H.
  - destruct H.
  - unfold bind, ret in H.
    destruct (c n) as [a0 n0] eqn:E0.
    destruct (repeatRand count c n0) as [rest n1] eqn:E1.
    simpl in H. destruct H as [<- | H].
    + exists n. rewrite E0. reflexivity.
    + apply (IH n0). rewrite E1. exact H.
Qed.

Lemma repeatRand_length {A : Type} (c : Rand A) (count : nat) :
  forall n, length (fst (repeatRand count c n)) = count.
Proof.
  induction count as [| count IH]; intros n; simpl.
  - reflexivity.
  - unfold bind, ret.
    destruct (c n) as [a0 n0].
    specialize (IH n0).
    destruct (repeatRand count c n0) as [rest n1].
    simpl in *. rewrite IH. reflexivity.
Qed.

(** A computation that reads [w] values each time it runs, repeated. *)
Lemma repeatRand_fixed {A : Type} (c : Rand A) (w : nat) :
  (forall n, snd (c n) = (w + n)%nat) ->
  forall count n,
    snd (repeatRand count c n) = (w * count + n)%nat /\
    forall i, (i < count)%nat ->
      nth_error (fst (repeatRand count c n)) i = Some (fst (c (w * i + n)%nat)).
Proof.
  intros Hc. induction count as [| count IH]; intros n; simpl.
  - split; [lia | intros i Hi; lia].
  - unfold bind, ret.
    pose proof (Hc n) as Hn.
    destruct (c n) as [a0 n0] eqn:E0. simpl in Hn.
    destruct (IH n0) as [IHs IHn].
    destruct (repeatRand count c n0) as [rest n1]. simpl in *.
    split; [lia |].
    intros [| i] Hi; simpl.
    + rewrite Nat.mul_0_r. simpl. rewrite E0. reflexivity.
    + rewrite IHn by lia. do 3 f_equal. lia.
Qed.

Lemma treePoint_draws (random : nat -> R) (fround : R -> R) (n : nat) :
  snd (treePoint random fround n) = (8 + n)%nat.
Proof. reflexivity. Qed.

Lemma treePoint_stored (random : nat -> R) (fround : R -> R) (n : nat) :
  fst (treePoint random fround n) =
  storeTreePoint fround (fst (treePointComputed random n)).
Proof. reflexivity. Qed.

(** The runs of [repeatRand] start where the runs before them stopped. *)
Lemma repeatRand_readBefore {A : Type} (c : Rand A) (count : nat) :
  forall (n : nat) (a : A),
    In a (fst (repeatRand count c n)) ->
    exists i : nat, (i < count)%nat /\ a = fst (c (readBefore c n i)).
Proof.
  induction count as [| count IH]; intros n a H; simpl in H.
  - destruct H.
  - unfold bind, ret in H.
    destruct (c n) as [a0 n0] eqn:E0.
    destruct (repeatRand count c n0) as [rest n1] eqn:E1.
    simpl in H. destruct H as [<- | H].
    + exists 0%nat. split; [lia |]. simpl. rewrite E0. reflexivity.
    + destruct (IH n0 a) as (i & Hi & E); [rewrite E1; exact H |].
      exists (S i). split; [lia |]. simpl. rewrite E0. exact E.
Qed.

Section Laws.

Variable random : nat -> R.
Variable Color : Hex -> Vector3.t.
Hypothesis random_unit : forall k, unitDraw (random k).

Lemma treeRadiusAtY_power (h : R) :
  0 < h -> treeRadiusAtY h = CONFIG.dimensions.radius * Rpower h treeTaper.
Proof.
  intros P. unfold treeRadiusAtY, Math.pow.
  destruct (Rlt_dec 0 h); [reflexivity | contradiction].
Qed.

Lemma sqrt_unit (u : R) : unitDraw u -> 0 <= sqrt u <= 1.
Proof.
  intros [P L]. split; [apply sqrt_pos |].
  rewrite <- sqrt_1. apply sqrt_le_1_alt. lra.
Qed.

Lemma treePoint_laws (n : nat) :
  let q := fst (treePointComputed random n) in
  sphereLaw treeChaosRadius (random n) (random (1 + n)) (random (2 + n)) (tp_chaos q) /\
  coneVolumeLaw (random (3 + n)) (random (4 + n)) (random (5 + n)) (tp_target q).
Proof.
  cbv zeta. split.
  - apply sphereLaw_spherePoint; try apply random_unit.
    unfold treeChaosRadius. lra.
  - pose proof (random_unit (3 + n)) as Uy.
    pose proof (random_unit (5 + n)) as Uv.
    unfold coneVolumeLaw. cbv zeta.
    set (y := (random (3 + n)%nat - 0.5) * CONFIG.dimensions.height).
    set (a := y * 8.0 + random (4 + n)%nat * PI * 2).
    assert (T0 : tp_target (fst (treePointComputed random n)) =
                 Vector3.mk
                   (cos a * (treeRadiusAtY (normalizedYOf y) * sqrt (random (5 + n)%nat)))
                   y
                   (sin a * (treeRadiusAtY (normalizedYOf y) * sqrt (random (5 + n)%nat))))
      by reflexivity.
    rewrite T0. cbn [Vector3.x Vector3.y Vector3.z].
    assert (H : normalizedYOf y = 1 - random (3 + n)%nat).
    { unfold normalizedYOf, y, CONFIG.dimensions.height. lra. }
    assert (P : 0 < normalizedYOf y <= 1).
    { rewrite H. unfold unitDraw in Uy. lra. }
    pose proof (treeRadiusAtY_power _ (proj1 P)) as W.
    assert (T : treeTaper < 1) by (unfold treeTaper; lra).
    assert (B : CONFIG.dimensions.radius * normalizedYOf y
                <= treeRadiusAtY (normalizedYOf y)).
    { rewrite W. pose proof (Rpower_bulge _ treeTaper P (Rlt_le _ _ T)).
      unfold CONFIG.dimensions.radius. nra. }
    assert (N : 0 <= treeRadiusAtY (normalizedYOf y)).
    { unfold CONFIG.dimensions.radius in B. nra. }
    pose proof (sqrt_unit _ Uv) as [S0 S1].
    rewrite horizontal_polar by nra.
    split; [reflexivity |]. split; [exact H |]. split; [exact W |].
    split; [exact T |]. split; [exact B |]. split; [reflexivity |].
    split; [| split; [nra | split; apply Rmult_comm]].
    rewrite Rpow_mult_distr. f_equal. simpl. rewrite Rmult_1_r.
    apply sqrt_sqrt. apply Uv.
Qed.

Lemma ornament_fields (n : nat) :
  let o := snd (fst (ornament random Color n)) in
  let y := (random (S (S (S n))) - 0.5) * (CONFIG.dimensions.height - 1.5) in
  o_chaos o =
    spherePoint (ornamentChaosRadius * Math.cbrt (random n))
                (random (S n) * 2 * PI)
                (acos (2 * random (S (S n)) - 1)) /\
  o_target o =
    Vector3.mk
      (cos (random (S (S (S (S n)))) * PI * 2) * ornamentRadiusAtY (normalizedYOf y))
      y
      (sin (random (S (S (S (S n)))) * PI * 2) * ornamentRadiusAtY (normalizedYOf y)) /\
  o_current o = o_chaos o /\
  o_velocity o = Vector3.zero.
Proof.
  unfold ornament, bind, draw, ret. simpl.
  destruct (typeOf (random (S (S (S (S (S n))))))); simpl; repeat split.
Qed.

Lemma ornament_laws (n : nat) :
  let o := snd (fst (ornament random Color n)) in
  sphereLaw ornamentChaosRadius (random n) (random (1 + n)) (random (2 + n))
            (o_chaos o) /\
  coneSurfaceLaw (random (3 + n)) (random (4 + n)) (o_target o) /\
  o_current o = o_chaos o /\
  o_velocity o = Vector3.zero.
Proof.
  destruct (ornament_fields n) as (Hc & Ht & Hcur & Hv).
  cbv zeta in *.
  split; [| split; [| split; assumption]].
  - rewrite Hc. apply sphereLaw_spherePoint; try apply random_unit.
    unfold ornamentChaosRadius. lra.
  - rewrite Ht.
    pose proof (random_unit (3 + n)) as Uy.
    unfold coneSurfaceLaw. cbv zeta. cbn [Vector3.x Vector3.y Vector3.z Nat.add].
    set (y := (random (S (S (S n))) - 0.5) * (CONFIG.dimensions.height - 1.5)).
    assert (P : 0 < normalizedYOf y < 1).
    { unfold normalizedYOf, y, CONFIG.dimensions.height, unitDraw in *.
      cbn [Nat.add] in Uy. lra. }
    rewrite horizontal_polar
      by (unfold ornamentRadiusAtY, CONFIG.dimensions.radius; nra).
    split; [reflexivity |]. split; [exact P |]. split; [reflexivity |].
    split; [reflexivity |]. split; apply Rmult_comm.
Qed.

Lemma ofType_In (type : OrnamentType) (o : OrnamentData)
    (l : list (OrnamentType * OrnamentData)) :
  In o (ofType type l) -> exists t, In (t, o) l.
Proof.
  unfold ofType. intros H.
  apply in_map_iff in H. destruct H as ([t o'] & E & H).
  apply filter_In in H. destruct H as [H _].
  simpl in E. subst. exists t. exact H.
Qed.

Lemma generateOrnaments_In (count : nat) (rot : Euler) (o : OrnamentData) :
  In o (allOrnaments (generateOrnaments random Color count rot)) ->
  exists i, (i < count)%nat /\
    o = snd (fst (ornament random Color
                    (readBefore (ornament random Color) 0%nat i))).
Proof.
  unfold allOrnaments, generateOrnaments; simpl. intros H.
  assert (T : exists t, In (t, o) (fst (repeatRand count (ornament random Color) 0%nat))).
  { repeat (apply in_app_or in H; destruct H as [H | H];
            [eapply ofType_In; exact H |]).
    eapply ofType_In; exact H. }
  destruct T as (t & T).
  apply repeatRand_readBefore in T. destruct T as (i & Hi & T).
  exists i. split; [exact Hi |]. rewrite <- T. reflexivity.
Qed.

End Laws.

(** C4 (as amended). With draws in [0, 1).  The foliage point at position i
    of [generateTreeData] is made of the draws 8 i to 8 i + 7 and stored
    rounded to 32-bit floats; before the rounding its chaos coordinate is
    under the sphere law of radius 18 on the first three draws (the radius
    is 18 times the cube root of the first, the azimuth the second scaled
    to a turn, the cosine of the polar angle the third scaled to [-1, 1))
    and its target is under the cone volume law on the next three (radius
    3.5 * h ^ 0.85 at normalized height h, exponent below 1, distance to
    the axis that radius times the square root of the draw).  Every
    ornament is made of the draws from where the ornament before it
    stopped; its chaos coordinate is under the same sphere law with radius
    14 on its first three draws, and it starts there at rest; but its target
    lies on the surface of a straight cone, at the distance (3.5 - 0.4) * h
    from the axis. *)
Theorem C4_layout_laws :
  forall (random : nat -> R) (fround : R -> R) (Color : Hex -> Vector3.t)
         (count : nat) (rot : Euler),
    (forall k, unitDraw (random k)) ->
    (forall (i : nat) (p : TreePoint),
       nth_error (generateTreeData random fround count) i = Some p ->
       let n := (8 * i)%nat in
       let q := fst (treePointComputed random n) in
       p = storeTreePoint fround q /\
       sphereLaw treeChaosRadius (random n) (random (1 + n)%nat) (random (2 + n)%nat)
                 (tp_chaos q) /\
       coneVolumeLaw (random (3 + n)%nat) (random (4 + n)%nat) (random (5 + n)%nat)
                     (tp_target q)) /\
    (forall o : OrnamentData,
       In o (allOrnaments (generateOrnaments random Color count rot)) ->
       exists i : nat,
         (i < count)%nat /\
         let n := readBefore (ornament random Color) 0%nat i in
         o = snd (fst (ornament random Color n)) /\
         sphereLaw ornamentChaosRadius (random n) (random (1 + n)%nat) (random (2 + n)%nat)
                   (o_chaos o) /\
         coneSurfaceLaw (random (3 + n)%nat) (random (4 + n)%nat) (o_target o) /\
         o_current o = o_chaos o /\
         o_velocity o = Vector3.zero).
Proof.
  intros random fround Color count rot U. split.
  - intros i p H n q.
    assert (Hi : (i < count)%nat).
    { rewrite <- (repeatRand_length (treePoint random fround) count 0%nat).
      apply nth_error_Some. unfold generateTreeData in H. rewrite H. discriminate. }
    destruct (repeatRand_fixed (treePoint random fround) 8
                (treePoint_draws random fround) count 0%nat) as [_ Hn].
    unfold generateTreeData in H. rewrite (Hn i Hi) in H.
    replace (8 * i + 0)%nat with n in H by (unfold n; lia).
    rewrite treePoint_stored in H.
    split; [unfold q; congruence |]. apply (treePoint_laws random U n).
  - intros o H. apply generateOrnaments_In in H. destruct H as (i & Hi & E).
    exists i. split; [exact Hi |]. cbv zeta.
    pose proof (ornament_laws random Color U
                  (readBefore (ornament random Color) 0%nat i)) as L.
    cbv zeta in L. rewrite <- E in L.
    split; [exact E | exact L].
Qed.

Lemma C4_layout_laws_witness :
  nth_error (generateTreeData (fun _ => 1 / 2) (fun x => x) 1) 0 =
    Some (storeTreePoint (fun x => x)
            (fst (treePointComputed (fun _ => 1 / 2) 0%nat))) /\
  sphereLaw treeChaosRadius (1 / 2) (1 / 2) (1 / 2)
    (tp_chaos (fst (treePointComputed (fun _ => 1 / 2) 0%nat))) /\
  coneVolumeLaw (1 / 2) (1 / 2) (1 / 2)
    (tp_target (fst (treePointComputed (fun _ => 1 / 2) 0%nat))).
Proof.
  assert (U : forall k : nat, unitDraw ((fun _ : nat => 1 / 2) k)).
  { intros k. unfold unitDraw. lra. }
  split; [reflexivity |].
  apply (proj1 (C4_layout_laws (fun _ => 1 / 2) (fun x => x) (fun _ => Vector3.zero)
                               1%nat (mkEuler 0 0 0) U) 0%nat _ eq_refl).
Defined.

Lemma Rpower_base_1 (e : R) : Rpower 1 e = 1.
Proof. unfold Rpower. rewrite ln_1, Rmult_0_r. apply exp_0. Qed.

(** C4 (as stated) fails on the ornaments.  With every draw equal to 1/2
    the ornament stands at normalized height 1/2 and at the distance
    (3.5 - 0.4) * 1/2 = 1.55 from the axis, the full width of its cone
    there; and that width, (3.5 - 0.4) * h, is no multiple of a power of h
    with an exponent below 1. *)
Lemma C4_ornament_counterexample :
  o_target (snd (fst (ornament (fun _ => 1 / 2) (fun _ => Vector3.zero) 0%nat)))
    = Vector3.mk (-1.55) 0 0 /\
  normalizedYOf 0 = 1 / 2 /\
  ornamentRadiusAtY (1 / 2) = 1.55 /\
  horizontal (Vector3.mk (-1.55) 0 0) = ornamentRadiusAtY (1 / 2) /\
  ~ (exists c e : R,
        e < 1 /\
        forall h : R, 0 < h <= 1 -> ornamentRadiusAtY h = c * Math.pow h e).
Proof.
  assert (H0 : normalizedYOf 0 = 1 / 2).
  { unfold normalizedYOf, CONFIG.dimensions.height. lra. }
  assert (R1 : ornamentRadiusAtY (1 / 2) = 1.55).
  { unfold ornamentRadiusAtY, CONFIG.dimensions.radius. lra. }
  split; [| split; [exact H0 | split; [exact R1 | split]]].
  - destruct (ornament_fields (fun _ => 1 / 2) (fun _ => Vector3.zero) 0%nat)
      as (_ & T & _).
    cbv zeta in T. rewrite T.
    replace ((1 / 2 - 0.5) * (CONFIG.dimensions.height - 1.5)) with 0
      by (unfold CONFIG.dimensions.height; lra).
    replace (1 / 2 * PI * 2) with PI by lra.
    rewrite cos_PI, sin_PI, H0, R1. vec.
  - rewrite R1. unfold horizontal; simpl.
    apply sqrt_of_square; lra.
  - intros (c & e & E & L).
    pose proof (L 1 ltac:(lra)) as L1.
    pose proof (L (1 / 2) ltac:(lra)) as L2.
    unfold ornamentRadiusAtY, CONFIG.dimensions.radius, Math.pow in L1, L2.
    destruct (Rlt_dec 0 1); [| lra].
    destruct (Rlt_dec 0 (1 / 2)); [| lra].
    rewrite Rpower_base_1 in L1.
    pose proof (Rpower_bulge_strict (1 / 2) e ltac:(lra) E) as B.
    nra.
Qed.

(** * Further properties of the code *)

(** ** The generators *)

(** X1. [generateTreeData(count)] returns exactly [count] points, none for a
    count of zero, and reads eight random values for each: the point at
    position i is made of the draws 8 i to 8 i + 7, in the order of the
    source. *)
Theorem X1_generateTreeData_length_and_draws :
  forall (random : nat -> R) (fround : R -> R) (count : nat),
    length (generateTreeData random fround count) = count /\
    generateTreeData random fround 0 = [] /\
    snd (repeatRand count (treePoint random fround) 0%nat) = (8 * count)%nat /\
    (forall i, (i < count)%nat ->
       nth_error (generateTreeData random fround count) i =
       Some (fst (treePoint random fround (8 * i)%nat))).
Proof.
  intros random fround count.
  destruct (repeatRand_fixed (treePoint random fround) 8
              (treePoint_draws random fround) count 0%nat)
    as [Hs Hn].
  split; [apply repeatRand_length |]. split; [reflexivity |]. split.
  - rewrite Hs. lia.
  - intros i Hi. unfold generateTreeData. rewrite (Hn i Hi).
    do 3 f_equal. lia.
Qed.

Lemma Rpower_le_1 (h e : R) : 0 < h <= 1 -> 0 <= e -> Rpower h e <= 1.
Proof.
  intros [P L] E. rewrite <- (Rpower_base_1 e).
  apply Rle_Rpower_l; [exact E | split; assumption].
Qed.

(** X2. With draws in [0, 1) and the arrays rounding to 32-bit floats, every
    point that [generateTreeData] stores has a size from 0.2 to 1, a random
    attribute from 0 to 1, and a target inside the bounding box of the
    tree: at a height between minus and plus half the configured height,
    and on either horizontal axis no further from the centre than the
    configured radius.  The ends are included: a value just under one of
    them is stored as the end itself. *)
Theorem X2_tree_point_bounds :
  forall (random : nat -> R) (fround : R -> R) (count : nat) (p : TreePoint),
    (forall k, unitDraw (random k)) ->
    float32Rounding fround ->
    In p (generateTreeData random fround count) ->
    0.2 <= tp_size p <= 1 /\
    0 <= tp_random p <= 1 /\
    - (CONFIG.dimensions.height / 2) <= Vector3.y (tp_target p)
      <= CONFIG.dimensions.height / 2 /\
    - CONFIG.dimensions.radius <= Vector3.x (tp_target p)
      <= CONFIG.dimensions.radius /\
    - CONFIG.dimensions.radius <= Vector3.z (tp_target p)
      <= CONFIG.dimensions.radius.
Proof.
  intros random fround count p U F H.
  destruct F as (Mono & F0 & F1 & F35 & F35' & F45 & F45' & F02).
  unfold generateTreeData in H. apply repeatRand_In in H. destruct H as (n & ->).
  rewrite treePoint_stored.
  destruct (treePoint_laws random U n) as [_ L].
  unfold coneVolumeLaw in L. cbv zeta in L.
  set (q := fst (treePointComputed random n)) in *.
  destruct L as (Ey & Eh & EW & _ & _ & Hz & _ & Hle & Ex & Ez).
  pose proof (U (3 + n)%nat) as Uy.
  pose proof (U (5 + n)%nat) as Uv.
  pose proof (U (6 + n)%nat) as Us.
  pose proof (U (7 + n)%nat) as Ur.
  unfold unitDraw in *.
  assert (W : treeRadiusAtY (normalizedYOf (Vector3.y (tp_target q)))
              <= CONFIG.dimensions.radius).
  { rewrite EW, Eh.
    assert (B : Rpower (1 - random (3 + n)%nat) treeTaper <= 1).
    { apply Rpower_le_1; [lra | unfold treeTaper; lra]. }
    unfold CONFIG.dimensions.radius. nra. }
  assert (Z : 0 <= horizontal (tp_target q)) by (unfold horizontal; apply sqrt_pos).
  unfold CONFIG.dimensions.radius, CONFIG.dimensions.height in *.
  unfold storeTreePoint, fround3.
  cbn [tp_size tp_random tp_target Vector3.x Vector3.y Vector3.z].
  split; [| split; [| split; [| split]]].
  - assert (S : tp_size q = random (6 + n)%nat * 0.8 + 0.2) by reflexivity.
    pose proof (Mono 0.2 (tp_size q) ltac:(lra)).
    pose proof (Mono (tp_size q) 1 ltac:(lra)). lra.
  - assert (S : tp_random q = random (7 + n)%nat) by reflexivity.
    pose proof (Mono 0 (tp_random q) ltac:(lra)).
    pose proof (Mono (tp_random q) 1 ltac:(lra)). lra.
  - pose proof (Mono (- 4.5) (Vector3.y (tp_target q)) ltac:(lra)).
    pose proof (Mono (Vector3.y (tp_target q)) 4.5 ltac:(lra)). lra.
  - match type of Ex with _ = _ * cos ?a => pose proof (COS_bound a) as [C0 C1] end.
    assert (B : - 3.5 <= Vector3.x (tp_target q) <= 3.5) by (rewrite Ex; nra).
    pose proof (Mono (- 3.5) (Vector3.x (tp_target q)) ltac:(lra)).
    pose proof (Mono (Vector3.x (tp_target q)) 3.5 ltac:(lra)). lra.
  - match type of Ez with _ = _ * sin ?a => pose proof (SIN_bound a) as [C0 C1] end.
    assert (B : - 3.5 <= Vector3.z (tp_target q) <= 3.5) by (rewrite Ez; nra).
    pose proof (Mono (- 3.5) (Vector3.z (tp_target q)) ltac:(lra)).
    pose proof (Mono (Vector3.z (tp_target q)) 3.5 ltac:(lra)). lra.
Qed.

Lemma X2_tree_point_bounds_witness :
  0.2 <= tp_size (fst (treePoint (fun _ => 1 / 2) (fun x => x) 0%nat)) <= 1 /\
  0 <= tp_random (fst (treePoint (fun _ => 1 / 2) (fun x => x) 0%nat)) <= 1 /\
  - (CONFIG.dimensions.height / 2)
    <= Vector3.y (tp_target (fst (treePoint (fun _ => 1 / 2) (fun x => x) 0%nat)))
    <= CONFIG.dimensions.height / 2 /\
  - CONFIG.dimensions.radius
    <= Vector3.x (tp_target (fst (treePoint (fun _ => 1 / 2) (fun x => x) 0%nat)))
    <= CONFIG.dimensions.radius /\
  - CONFIG.dimensions.radius
    <= Vector3.z (tp_target (fst (treePoint (fun _ => 1 / 2) (fun x => x) 0%nat)))
    <= CONFIG.dimensions.radius.
Proof.
  assert (U : forall k : nat, unitDraw ((fun _ : nat => 1 / 2) k)).
  { intros k. unfold unitDraw. lra. }
  assert (F : float32Rounding (fun x : R => x)).
  { unfold float32Rounding. repeat split; try reflexivity; intros; lra. }
  apply (X2_tree_point_bounds (fun _ => 1 / 2) (fun x => x) 1%nat _ U F).
  left. reflexivity.
Defined.

(** X3. Type determination cuts the range of its draw into six bands: up to
    0.30 a bauble, then up to 0.50 a box, up to 0.55 a star, up to 0.60 a
    bell, up to 0.70 a cane, and above 0.70 a light. *)
Theorem X3_typeOf_bands :
  forall rand : R,
    (rand <= 0.30 -> typeOf rand = bauble) /\
    (0.30 < rand <= 0.50 -> typeOf rand = box) /\
    (0.50 < rand <= 0.55 -> typeOf rand = star) /\
    (0.55 < rand <= 0.60 -> typeOf rand = bell) /\
    (0.60 < rand <= 0.70 -> typeOf rand = cane) /\
    (0.70 < rand -> typeOf rand = light).
Proof.
  intros rand. unfold typeOf.
  destruct (Rgt_dec rand 0.30), (Rgt_dec rand 0.50), (Rgt_dec rand 0.55),
           (Rgt_dec rand 0.60), (Rgt_dec rand 0.70);
    repeat split; intros; try reflexivity; exfalso; lra.
Qed.

Lemma X3_typeOf_bands_witness :
  typeOf 0.1 = bauble /\ typeOf 0.4 = box /\ typeOf 0.52 = star /\
  typeOf 0.58 = bell /\ typeOf 0.65 = cane /\ typeOf 0.9 = light.
Proof.
  split; [apply (X3_typeOf_bands 0.1); lra |].
  split; [apply (X3_typeOf_bands 0.4); lra |].
  split; [apply (X3_typeOf_bands 0.52); lra |].
  split; [apply (X3_typeOf_bands 0.58); lra |].
  split; [apply (X3_typeOf_bands 0.65); lra |].
  apply (X3_typeOf_bands 0.9); lra.
Defined.

Lemma ofType_lengths (l : list (OrnamentType * OrnamentData)) :
  (length (ofType bauble l) + length (ofType box l) + length (ofType light l)
   + length (ofType star l) + length (ofType bell l) + length (ofType cane l))%nat
  = length l.
Proof.
  unfold ofType. induction l as [| [t o] rest IH]; simpl.
  - reflexivity.
  - destruct t; simpl; lia.
Qed.

Lemma ofType_In_iff (type : OrnamentType) (o : OrnamentData)
    (l : list (OrnamentType * OrnamentData)) :
  In o (ofType type l) <-> In (type, o) l.
Proof.
  unfold ofType. split.
  - intros H. apply in_map_iff in H. destruct H as ([t o'] & E & H).
    apply filter_In in H. destruct H as [H T]. simpl in *. subst.
    destruct t, type; try discriminate; exact H.
  - intros H. apply in_map_iff. exists (type, o). split; [reflexivity |].
    apply filter_In. split; [exact H |]. destruct type; reflexivity.
Qed.

(** X4. The population of [Ornaments] loses and doubles nothing: the six
    lists together hold as many ornaments as were generated, and an ornament
    is in the list of a type exactly when it was generated with that
    type. *)
Theorem X4_ornaments_partition :
  forall (random : nat -> R) (Color : Hex -> Vector3.t) (count : nat) (rot : Euler),
    let s := generateOrnaments random Color count rot in
    let all := fst (repeatRand count (ornament random Color) 0%nat) in
    length all = count /\
    (length (baubles s) + length (boxes s) + length (lights s)
     + length (stars s) + length (bells s) + length (canes s))%nat = count /\
    (forall (type : OrnamentType) (o : OrnamentData),
        In o (listOf type s) <-> In (type, o) all) /\
    dummy s = rot.
Proof.
  intros random Color count rot s all.
  assert (L : length all = count) by apply repeatRand_length.
  split; [exact L |]. split; [| split].
  - unfold s, generateOrnaments; simpl. fold all.
    rewrite ofType_lengths. exact L.
  - intros type o. unfold s, generateOrnaments. fold all.
    destruct type; simpl; apply ofType_In_iff.
  - reflexivity.
Qed.

(** ** The integrator *)

Lemma useLayoutEffect_lightColour (s : OrnamentsState) :
  lightColour (Ornaments_useLayoutEffect allMounted s) = notEmpty (lights s).
Proof.
  unfold Ornaments_useLayoutEffect, afterSetColorAt; simpl.
  destruct (lights s); reflexivity.
Qed.

(** X5. The last statement of [updateList] reads the [instanceColor] of the
    mesh of the lights, and a mesh has none before a colour is set on it.
    So a call throws exactly when it is the call for the lights, on a
    mounted mesh without instance colours, and the loop sets none: in chaos
    mode, or with no light in the list.  After the mount effect of
    [Ornaments] a frame throws exactly when the population has no light,
    whatever the mode; it has then advanced the baubles and the boxes and
    leaves the stars, the bells and the canes where they were. *)
Theorem X5_updateList_throws :
  (forall (mounted instanceColor isFormed : bool) (time delta : R)
          (mouseVec : Vector3.t) (type : OrnamentType) (rot : Euler)
          (list : list OrnamentData),
      returns (updateList mounted instanceColor isFormed time delta mouseVec
                          type rot list) = false <->
      mounted = true /\ type = light /\ instanceColor = false /\
      (isFormed = false \/ list = [])) /\
  (forall (m : Mode) (time delta : R) (ptr : Pointer) (s : OrnamentsState),
      let colours := Ornaments_useLayoutEffect allMounted s in
      let frame := Ornaments_useFrame allMounted colours m time delta ptr s in
      let s' := fst (leaves frame) in
      let step := integrate (Mode_eqb m formed) delta (mouseVecOf ptr) in
      (returns frame = false <-> lights s = []) /\
      (lights s = [] ->
       baubles s' = map (step bauble) (baubles s) /\
       boxes s' = map (step box) (boxes s) /\
       lights s' = [] /\
       stars s' = stars s /\ bells s' = bells s /\ canes s' = canes s)).
Proof.
  split.
  - intros mounted instanceColor isFormed time delta mouseVec type rot list.
    destruct mounted.
    + destruct (updateList_mounted instanceColor isFormed time delta mouseVec
                  type rot list) as (_ & _ & R).
      cbv zeta in R. rewrite R.
      destruct type, instanceColor, isFormed, list; simpl; split;
        try discriminate;
        try (intros (_ & A & B & [C | C]); discriminate);
        intros _; repeat split; (left; reflexivity) || (right; reflexivity).
    + simpl. split; [discriminate | intros (A & _); discriminate].
  - intros m time delta ptr s colours frame s' step.
    destruct (Ornaments_useFrame_mounted colours m time delta ptr s) as [Hr Hs].
    cbv zeta in Hr, Hs. fold frame in Hr, Hs. fold s' in Hs.
    unfold colours in Hr, Hs. rewrite useLayoutEffect_lightColour in Hr, Hs.
    split.
    + rewrite Hr. destruct (lights s), (Mode_eqb m formed); simpl; split;
        intros; try reflexivity; discriminate.
    + intros E. rewrite E in Hs. cbn [notEmpty orb] in Hs.
      rewrite Bool.andb_false_r in Hs. rewrite Hs.
      cbn [baubles boxes lights stars bells canes].
      unfold step. rewrite !forEachItem_items. repeat split.
Qed.

Lemma integrate_eta (isFormed : bool) (delta : R) (mouseVec : Vector3.t)
    (type : OrnamentType) (item : OrnamentData) :
  integrate isFormed delta mouseVec type item =
  mkOrnament (o_chaos item) (o_target item)
             (o_current (integrate isFormed delta mouseVec type item))
             (o_velocity (integrate isFormed delta mouseVec type item))
             (o_scale item) (o_color item) (o_phase item).
Proof. reflexivity. Qed.

Lemma force_at_destination (dest : Vector3.t) (spd delta : R) :
  force dest dest spd delta = Vector3.zero.
Proof. unfold force. vec. Qed.

Lemma integrate_rest (isFormed : bool) (delta : R) (mouseVec : Vector3.t)
    (type : OrnamentType) (item : OrnamentData) :
  o_velocity item = Vector3.zero ->
  o_current item = (if isFormed then o_target item else o_chaos item) ->
  interactionRadius <= Vector3.distanceTo (o_current item) mouseVec ->
  integrate isFormed delta mouseVec type item = item.
Proof.
  intros V C F.
  assert (V' : o_velocity (integrate isFormed delta mouseVec type item) = Vector3.zero).
  { rewrite integrate_velocity. rewrite repulsion_far by exact F.
    rewrite V, <- C, force_at_destination. vec. }
  rewrite integrate_eta, integrate_current, V', add_zero_r, <- V.
  destruct item; reflexivity.
Qed.

Lemma distanceTo_ge (a b : Vector3.t) (r : R) :
  0 <= r -> r * r <= Vector3.distanceToSquared a b -> r <= Vector3.distanceTo a b.
Proof.
  intros P H. unfold Vector3.distanceTo.
  rewrite <- (sqrt_square r P). apply sqrt_le_1_alt. exact H.
Qed.

(** X6. An ornament at rest on its destination, with the pointer out of
    range at every tick, stays exactly where it is over any run of ticks,
    whatever their lengths are. *)
Theorem X6_rest_is_stable :
  forall (isFormed : bool) (type : OrnamentType)
         (ticks : list (R * Vector3.t)) (item : OrnamentData),
    o_velocity item = Vector3.zero ->
    o_current item = (if isFormed then o_target item else o_chaos item) ->
    Forall (fun t => interactionRadius <= Vector3.distanceTo (o_current item) (snd t))
           ticks ->
    integrateRun isFormed type ticks item = item.
Proof.
  intros isFormed type ticks item V C. unfold integrateRun.
  induction ticks as [| t rest IH]; intros Far; simpl.
  - reflexivity.
  - inversion Far as [| ? ? Ft Frest]; subst.
    rewrite integrate_rest by assumption. apply IH. exact Frest.
Qed.

Lemma X6_rest_is_stable_witness :
  integrateRun true star
    [(0.016, Vector3.mk 4 0 0); (2, Vector3.mk 5 0 0)]
    (mkOrnament (Vector3.mk 0 9 0) Vector3.zero Vector3.zero Vector3.zero
                1 Vector3.zero 0)
  = mkOrnament (Vector3.mk 0 9 0) Vector3.zero Vector3.zero Vector3.zero
               1 Vector3.zero 0.
Proof.
  apply X6_rest_is_stable; [reflexivity | reflexivity |].
  apply Forall_cons; [| apply Forall_cons; [| apply Forall_nil]];
    simpl; apply distanceTo_ge;
    unfold interactionRadius, Vector3.distanceToSquared; simpl; lra.
Defined.

Lemma distanceTo_add (a b d : Vector3.t) :
  Vector3.distanceTo (Vector3.add a d) (Vector3.add b d) = Vector3.distanceTo a b.
Proof.
  unfold Vector3.distanceTo, Vector3.distanceToSquared; simpl. f_equal. ring.
Qed.

Lemma sub_add (a b d : Vector3.t) :
  Vector3.sub (Vector3.add a d) (Vector3.add b d) = Vector3.sub a b.
Proof. vec. Qed.

(** X7. The integrator does not depend on where the origin is: moving the
    two anchors, the position and the pointer by one and the same vector
    moves the result of the tick by that vector and leaves the velocity as
    it is. *)
Theorem X7_integrate_translation :
  forall (isFormed : bool) (delta : R) (mouseVec d : Vector3.t)
         (type : OrnamentType) (item : OrnamentData),
    integrate isFormed delta (Vector3.add mouseVec d) type (translate d item) =
    translate d (integrate isFormed delta mouseVec type item).
Proof.
  intros isFormed delta mouseVec d type item.
  assert (V : o_velocity
                (integrate isFormed delta (Vector3.add mouseVec d) type (translate d item))
              = o_velocity (integrate isFormed delta mouseVec type item)).
  { rewrite !integrate_velocity. simpl.
    unfold repulsion, force. rewrite distanceTo_add, !sub_add.
    destruct isFormed; rewrite sub_add; reflexivity. }
  rewrite (integrate_eta _ _ (Vector3.add mouseVec d)), integrate_current, V.
  unfold translate. rewrite integrate_current. simpl.
  f_equal. vec.
Qed.

Lemma integrate_far_velocity (isFormed : bool) (delta : R) (mouseVec : Vector3.t)
    (type : OrnamentType) (item : OrnamentData) :
  interactionRadius <= Vector3.distanceTo (o_current item) mouseVec ->
  o_velocity (integrate isFormed delta mouseVec type item) =
  Vector3.multiplyScalar
    (Vector3.add (o_velocity item)
       (force (if isFormed then o_target item else o_chaos item)
              (o_current item) (speed (weights type)) delta))
    (damping (weights type)).
Proof.
  intros F. rewrite integrate_velocity, repulsion_far by exact F.
  rewrite add_zero_r. reflexivity.
Qed.

Lemma energy_step (isFormed : bool) (delta : R) (mouseVec : Vector3.t)
    (type : OrnamentType) (item : OrnamentData) :
  interactionRadius <= Vector3.distanceTo (o_current item) mouseVec ->
  energy isFormed delta type (integrate isFormed delta mouseVec type item) =
  damping (weights type) * energy isFormed delta type item.
Proof.
  intros F. unfold energy.
  rewrite integrate_current, integrate_far_velocity by exact F.
  change (o_target (integrate isFormed delta mouseVec type item)) with (o_target item).
  change (o_chaos (integrate isFormed delta mouseVec type item)) with (o_chaos item).
  unfold tickTrace, force, axisEnergy. simpl.
  set (dest := if isFormed then o_target item else o_chaos item).
  set (d := damping (weights type)). set (s := speed (weights type)).
  ring.
Qed.

Lemma axisEnergy_lower (t d e v : R) :
  (4 * d - t * t) * (e * e) <= 4 * d * axisEnergy t d e v.
Proof.
  unfold axisEnergy.
  assert (H : 0 <= (2 * d * (e - v) - t * e) * (2 * d * (e - v) - t * e))
    by apply Rle_0_sqr.
  nra.
Qed.

Lemma energy_lower (isFormed : bool) (delta : R) (type : OrnamentType)
    (item : OrnamentData) :
  (4 * damping (weights type) - tickTrace type delta * tickTrace type delta)
  * Vector3.distanceToSquared (o_current item)
      (if isFormed then o_target item else o_chaos item)
  <= 4 * damping (weights type) * energy isFormed delta type item.
Proof.
  unfold energy, Vector3.distanceToSquared. cbv zeta.
  set (dest := if isFormed then o_target item else o_chaos item).
  pose proof (axisEnergy_lower (tickTrace type delta) (damping (weights type))
                (Vector3.x (o_current item) - Vector3.x dest)
                (Vector3.x (o_velocity item))) as X.
  pose proof (axisEnergy_lower (tickTrace type delta) (damping (weights type))
                (Vector3.y (o_current item) - Vector3.y dest)
                (Vector3.y (o_velocity item))) as Y.
  pose proof (axisEnergy_lower (tickTrace type delta) (damping (weights type))
                (Vector3.z (o_current item) - Vector3.z dest)
                (Vector3.z (o_velocity item))) as Z.
  lra.
Qed.

Lemma integrateRun_snoc (isFormed : bool) (type : OrnamentType)
    (ticks : list (R * Vector3.t)) (t : R * Vector3.t) (item : OrnamentData) :
  integrateRun isFormed type (ticks ++ [t]) item =
  integrate isFormed (fst t) (snd t) type (integrateRun isFormed type ticks item).
Proof. unfold integrateRun. rewrite fold_left_app. reflexivity. Qed.

Lemma integrateRun_anchors (isFormed : bool) (type : OrnamentType)
    (ticks : list (R * Vector3.t)) :
  forall item,
    o_target (integrateRun isFormed type ticks item) = o_target item /\
    o_chaos (integrateRun isFormed type ticks item) = o_chaos item.
Proof.
  unfold integrateRun.
  induction ticks as [| t rest IH]; intros item; simpl.
  - split; reflexivity.
  - destruct (IH (integrate isFormed (fst t) (snd t) type item)) as [T C].
    rewrite T, C. split; reflexivity.
Qed.

Lemma energy_run (isFormed : bool) (delta : R) (mouseVec : Vector3.t)
    (type : OrnamentType) (item : OrnamentData) (n : nat) :
  (forall k, (k < n)%nat ->
     interactionRadius <=
     Vector3.distanceTo
       (o_current (integrateRun isFormed type (repeat (delta, mouseVec) k) item))
       mouseVec) ->
  energy isFormed delta type (integrateRun isFormed type (repeat (delta, mouseVec) n) item)
  = damping (weights type) ^ n * energy isFormed delta type item.
Proof.
  induction n as [| n IH]; intros Far.
  - simpl. lra.
  - replace (repeat (delta, mouseVec) (S n))
      with (repeat (delta, mouseVec) n ++ [(delta, mouseVec)])
      by (symmetry; apply repeat_cons).
    rewrite integrateRun_snoc. simpl fst. simpl snd.
    rewrite energy_step by (apply Far; lia).
    rewrite IH by (intros k Hk; apply Far; lia).
    simpl. ring.
Qed.

(** X8. Ornaments settle.  Over ticks of one length with the pointer out
    of range throughout, a quadratic energy of the ornament (in its offset to
    the destination and its velocity) is after n ticks the damping to the
    power n times what it was; and where the spring is underdamped,
    trace * trace < 4 * damping, as it is for all six types at 60 ticks a
    second, the energy is not negative and bounds the squared distance to
    the destination, which hence falls geometrically. *)
Theorem X8_ornaments_settle :
  forall (isFormed : bool) (delta : R) (mouseVec : Vector3.t)
         (type : OrnamentType) (item : OrnamentData) (n : nat),
    (forall k, (k < n)%nat ->
       interactionRadius <=
       Vector3.distanceTo
         (o_current (integrateRun isFormed type (repeat (delta, mouseVec) k) item))
         mouseVec) ->
    let item_n := integrateRun isFormed type (repeat (delta, mouseVec) n) item in
    let dest := if isFormed then o_target item else o_chaos item in
    let d := damping (weights type) in
    let t := tickTrace type delta in
    energy isFormed delta type item_n = d ^ n * energy isFormed delta type item /\
    (4 * d - t * t) * Vector3.distanceToSquared (o_current item_n) dest
      <= 4 * d * (d ^ n * energy isFormed delta type item) /\
    (t * t < 4 * d -> 0 <= energy isFormed delta type item) /\
    (forall ty : OrnamentType,
        tickTrace ty (1 / 60) * tickTrace ty (1 / 60) < 4 * damping (weights ty)).
Proof.
  intros isFormed delta mouseVec type item n Far item_n dest d t.
  pose proof (energy_run isFormed delta mouseVec type item n Far) as E.
  split; [exact E |]. split; [| split; [| intros ty; destruct ty; unfold tickTrace; simpl; lra]].
  - pose proof (energy_lower isFormed delta type item_n) as L.
    destruct (integrateRun_anchors isFormed type (repeat (delta, mouseVec) n) item)
      as [T C].
    fold item_n in T, C, E. rewrite T, C in L. rewrite E in L. exact L.
  - intros U. pose proof (energy_lower isFormed delta type item) as L.
    change (tickTrace type delta) with t in L.
    change (damping (weights type)) with d in L.
    assert (Q : 0 <= Vector3.distanceToSquared (o_current item)
                       (if isFormed then o_target item else o_chaos item)).
    { unfold Vector3.distanceToSquared. cbv zeta.
      apply Rplus_le_le_0_compat; [apply Rplus_le_le_0_compat |]; apply Rle_0_sqr. }
    assert (D : 0 < d) by (unfold d; destruct type; simpl; lra).
    assert (P : 0 <= (4 * d - t * t)
                     * Vector3.distanceToSquared (o_current item)
                         (if isFormed then o_target item else o_chaos item)).
    { apply Rmult_le_pos; [lra | exact Q]. }
    assert (E4 : 0 <= 4 * d * energy isFormed delta type item) by lra.
    destruct (Rle_dec 0 (energy isFormed delta type item)) as [Y | N]; [exact Y |].
    exfalso. apply Rnot_le_lt in N.
    assert (4 * d * energy isFormed delta type item < 0); [| lra].
    replace 0 with (4 * d * 0) by ring.
    apply Rmult_lt_compat_l; lra.
Qed.

Lemma X8_ornaments_settle_witness :
  energy true 0.1 bauble
    (integrateRun true bauble (repeat (0.1, Vector3.zero) 1)
       (mkOrnament Vector3.zero Vector3.zero (Vector3.mk 10 0 0) Vector3.zero
                   1 Vector3.zero 0))
  = damping (weights bauble) ^ 1
    * energy true 0.1 bauble
        (mkOrnament Vector3.zero Vector3.zero (Vector3.mk 10 0 0) Vector3.zero
                    1 Vector3.zero 0).
Proof.
  apply (X8_ornaments_settle true 0.1 Vector3.zero bauble
           (mkOrnament Vector3.zero Vector3.zero (Vector3.mk 10 0 0) Vector3.zero
                       1 Vector3.zero 0) 1%nat).
  intros k Hk. assert (k = 0%nat) by lia. subst k. simpl.
  rewrite distanceTo_axis by lra. unfold interactionRadius. lra.
Defined.

Lemma rotate_ry (type : OrnamentType) (time delta : R) (current : Vector3.t)
    (rot : Euler) :
  ry (rotate type time delta current rot) = ry rot + delta * yRate type.
Proof. destruct type; simpl; lra. Qed.

Lemma forEachItem_ry (isFormed : bool) (time delta : R) (mouseVec : Vector3.t)
    (type : OrnamentType) (list : list OrnamentData) :
  forall rot,
    ry (lf_dummy (forEachItem isFormed time delta mouseVec type rot list))
      = ry rot + INR (length list) * (delta * yRate type) /\
    (forall i pose,
        nth_error (lf_poses (forEachItem isFormed time delta mouseVec type rot list)) i
          = Some pose ->
        ry (p_rotation pose) = ry rot + INR (S i) * (delta * yRate type)).
Proof.
  induction list as [| item rest IH]; intros rot.
  - simpl. split; [lra |]. intros [| i] pose H; discriminate.
  - cbn [forEachItem updateItem lf_dummy lf_poses length].
    destruct (IH (rotate type time delta
                    (o_current (integrate isFormed delta mouseVec type item)) rot))
      as [D P].
    rewrite rotate_ry in D, P.
    split.
    + rewrite D, S_INR. lra.
    + intros [| i] pose H; simpl in H.
      * inversion H; subst. simpl. rewrite rotate_ry. lra.
      * rewrite (P i pose H). rewrite (S_INR (S i)). lra.
Qed.

(** X9. The scratch [dummy] is shared by the items of a frame, so its turn
    about y is handed on from item to item and from list to list: the pose
    at position i of a list is turned by (i + 1) steps more than the
    [dummy] was before the list, a step being [delta] (half of it for
    canes, nothing for bells).  A frame of [Ornaments] that returns leaves
    the [dummy] turned by [delta] * (baubles + boxes + lights + stars +
    canes / 2), and one that throws at the lights by [delta] * (baubles +
    boxes + lights). *)
Theorem X9_shared_dummy_spin :
  forall (instanceColor isFormed : bool) (time delta : R) (mouseVec : Vector3.t)
         (type : OrnamentType) (rot : Euler) (list : list OrnamentData),
    let f := fst (leaves (updateList true instanceColor isFormed time delta
                                     mouseVec type rot list)) in
    ry (lf_dummy f) = ry rot + INR (length list) * (delta * yRate type) /\
    (forall i pose,
        nth_error (lf_poses f) i = Some pose ->
        ry (p_rotation pose) = ry rot + INR (S i) * (delta * yRate type)) /\
    (forall (m : Mode) (colours : OrnamentColours) (ptr : Pointer)
            (s : OrnamentsState),
        let frame := Ornaments_useFrame allMounted colours m time delta ptr s in
        ry (dummy (fst (leaves frame))) =
        ry (dummy s)
        + delta * (INR (length (baubles s)) + INR (length (boxes s))
                   + INR (length (lights s))
                   + (if returns frame
                      then INR (length (stars s)) + INR (length (canes s)) / 2
                      else 0))).
Proof.
  intros instanceColor isFormed time delta mouseVec type rot list f.
  destruct (updateList_mounted instanceColor isFormed time delta mouseVec
              type rot list) as (F & _ & _).
  cbv zeta in F. fold f in F. rewrite F.
  destruct (forEachItem_ry isFormed time delta mouseVec type list rot) as [D P].
  split; [exact D |]. split; [exact P |].
  intros m colours ptr s frame.
  destruct (Ornaments_useFrame_mounted colours m time delta ptr s) as [Hr Hs].
  cbv zeta in Hr, Hs. fold frame in Hr, Hs.
  rewrite Hs, Hr.
  destruct (lightColour colours || (Mode_eqb m formed && notEmpty (lights s)));
    cbn [dummy];
    repeat match goal with
    | |- context [ry (lf_dummy (forEachItem ?a ?b ?c ?d ?t ?r ?l))] =>
        rewrite (proj1 (forEachItem_ry a b c d t l r))
    end;
    simpl; lra.
Qed.

(** X10. Only a light in formed mode gets a colour written in a frame, and
    that colour is the base colour of the item dimmed by a brightness
    between 0 and 1. *)
Theorem X10_twinkle :
  forall (isFormed : bool) (time : R) (type : OrnamentType) (item : OrnamentData),
    (twinkle isFormed time type item <> None <-> type = light /\ isFormed = true) /\
    (forall c, twinkle isFormed time type item = Some c ->
       exists brightness,
         0 <= brightness <= 1 /\
         c = Vector3.multiplyScalar (o_color item) brightness).
Proof.
  intros isFormed time type item. unfold twinkle.
  pose proof (SIN_bound (time * 5 + o_phase item)) as [S0 S1].
  destruct type, isFormed; simpl; split;
    try (split; [intros H; exfalso; apply H; reflexivity
                | intros [H1 H2]; discriminate]);
    try (intros c H; discriminate).
  - split; [intros _; split; reflexivity | intros _; discriminate].
  - intros c H. inversion H; subst.
    exists (0.5 + 0.5 * sin (time * 5 + o_phase item)). split; [lra | reflexivity].
Qed.

(** ** The foliage *)

Lemma sub_lerp (a b : Vector3.t) (alpha : R) :
  Vector3.sub (Vector3.lerp a b alpha) b =
  Vector3.multiplyScalar (Vector3.sub a b) (1 - alpha).
Proof. apply vec_eq; simpl; ring. Qed.

(** A [lerp] by [alpha] leaves the share [1 - alpha] of the way to go. *)
Lemma distanceTo_lerp (a b : Vector3.t) (alpha : R) :
  alpha <= 1 ->
  Vector3.distanceTo (Vector3.lerp a b alpha) b = Vector3.distanceTo a b * (1 - alpha).
Proof.
  intros H. rewrite <- !length_sub, sub_lerp.
  apply length_multiplyScalar. lra.
Qed.

Lemma runFoliage_snoc (ticks : list FoliageFrame) (f : FoliageFrame) (u : Uniforms) :
  runFoliage (ticks ++ [f]) u =
  Foliage_useFrame (ff_mounted f) (ff_mode f) (ff_time f) (ff_delta f) (ff_pointer f)
                   (runFoliage ticks u).
Proof. unfold runFoliage. rewrite fold_left_app. reflexivity. Qed.

Lemma progressFactor_unit (ticks : list FoliageFrame) :
  Forall (fun f => 0 <= ff_delta f <= 1.25) ticks ->
  0 <= progressFactor ticks <= 1.
Proof.
  induction ticks as [| f rest IH]; intros H; simpl.
  - lra.
  - inversion H as [| ? ? Hf Hrest]; subst.
    specialize (IH Hrest). nra.
Qed.

(** X11. Over a run of mounted frames in one mode, the gap between the
    target progress of that mode and the progress is multiplied by
    [1 - 0.8 * delta] at each tick: with ticks of at most 1.25 s the
    progress moves toward the target and never past it, and a tick of
    exactly 1.25 s lands on it. *)
Theorem X11_progress_gap :
  forall (m : Mode) (ticks : list FoliageFrame) (u : Uniforms),
    Forall (fun f => ff_mounted f = true /\ ff_mode f = m) ticks ->
    targetProgress m - uProgress (runFoliage ticks u)
      = progressFactor ticks * (targetProgress m - uProgress u) /\
    (Forall (fun f => 0 <= ff_delta f <= 1.25) ticks ->
       0 <= progressFactor ticks <= 1) /\
    (forall f, In f ticks -> ff_delta f = 1.25 ->
       uProgress (runFoliage ticks u) = targetProgress m).
Proof.
  intros m ticks u H.
  assert (G : forall u0,
             targetProgress m - uProgress (runFoliage ticks u0)
             = progressFactor ticks * (targetProgress m - uProgress u0)).
  { unfold runFoliage. induction ticks as [| f rest IH]; intros u0; simpl.
    - lra.
    - inversion H as [| ? ? [Hm Hmode] Hrest]; subst.
      rewrite (IH Hrest). rewrite Hm. simpl.
      unfold stepProgress, MathUtils.lerp. ring. }
  split; [apply G |]. split; [apply progressFactor_unit |].
  intros f Hin Hd.
  assert (Z : progressFactor ticks = 0).
  { clear G H. induction ticks as [| g rest IH]; [destruct Hin |].
    simpl. destruct Hin as [-> | Hin].
    - rewrite Hd. lra.
    - rewrite (IH Hin). ring. }
  specialize (G u). rewrite Z in G. lra.
Qed.

Lemma X11_progress_gap_witness :
  targetProgress formed
  - uProgress
      (runFoliage [mkFoliageFrame true formed 0 0.5 (mkPointer 0 0 1 1)] initialUniforms)
  = progressFactor [mkFoliageFrame true formed 0 0.5 (mkPointer 0 0 1 1)]
    * (targetProgress formed - uProgress initialUniforms).
Proof.
  apply (X11_progress_gap formed [mkFoliageFrame true formed 0 0.5 (mkPointer 0 0 1 1)]
           initialUniforms).
  apply Forall_cons; [split; reflexivity | apply Forall_nil].
Defined.

(** X12. The pointer of the shader trails the pointer of the scene: each
    mounted frame brings [uMouse] to 0.85 of its distance to where the
    pointer is, so that with the pointer held still the distance after n
    frames is 0.85 to the power n times what it was. *)
Theorem X12_uMouse_trails :
  forall (ptr : Pointer) (ticks : list FoliageFrame) (u : Uniforms),
    Forall (fun f => ff_mounted f = true /\ ff_pointer f = ptr) ticks ->
    Vector3.distanceTo (uMouse (runFoliage ticks u)) (mouseVecOf ptr)
      = Vector3.distanceTo (uMouse u) (mouseVecOf ptr) * 0.85 ^ length ticks.
Proof.
  intros ptr ticks. unfold runFoliage.
  induction ticks as [| f rest IH]; intros u H; simpl.
  - lra.
  - inversion H as [| ? ? [Hm Hp] Hrest]; subst.
    rewrite (IH _ Hrest). rewrite Hm. simpl.
    rewrite distanceTo_lerp by lra.
    set (p := 0.85 ^ length rest).
    set (d := Vector3.distanceTo (uMouse u) (mouseVecOf (ff_pointer f))).
    undecimal. field.
Qed.

Lemma X12_uMouse_trails_witness :
  Vector3.distanceTo
    (uMouse (runFoliage [mkFoliageFrame true formed 0 0.5 (mkPointer 0 0 1 1)]
                        initialUniforms))
    (mouseVecOf (mkPointer 0 0 1 1))
  = Vector3.distanceTo (uMouse initialUniforms) (mouseVecOf (mkPointer 0 0 1 1))
    * 0.85 ^ 1.
Proof.
  apply (X12_uMouse_trails (mkPointer 0 0 1 1)
           [mkFoliageFrame true formed 0 0.5 (mkPointer 0 0 1 1)] initialUniforms).
  apply Forall_cons; [split; reflexivity | apply Forall_nil].
Defined.

Lemma length_multiplyScalar_abs (a : Vector3.t) (s : R) :
  Vector3.length (Vector3.multiplyScalar a s) = Vector3.length a * Rabs s.
Proof.
  unfold Vector3.length, Vector3.lengthSq; simpl.
  replace (Vector3.x a * s * (Vector3.x a * s) + Vector3.y a * s * (Vector3.y a * s) +
           Vector3.z a * s * (Vector3.z a * s))
    with (Vector3.lengthSq a * Rsqr s) by (unfold Vector3.lengthSq, Rsqr; ring).
  rewrite sqrt_mult by (try apply lengthSq_nonneg; apply Rle_0_sqr).
  rewrite sqrt_Rsqr_abs. reflexivity.
Qed.

Lemma GLSL_normalize_length (v : Vector3.t) :
  Vector3.length v <> 0 -> Vector3.length (GLSL.normalize v) = 1.
Proof.
  intros N. unfold GLSL.normalize.
  pose proof (length_nonneg v) as P.
  rewrite length_multiplyScalar.
  - field. exact N.
  - apply Rlt_le, Rinv_0_lt_compat. lra.
Qed.

Lemma vertexPosition_far (u : Uniforms) (aChaosPos aTargetPos : Vector3.t)
    (aRandom : R) :
  interactionRadius
    <= Vector3.distanceTo (breathed u aChaosPos aTargetPos aRandom) (uMouse u) ->
  vertexPosition u aChaosPos aTargetPos aRandom = breathed u aChaosPos aTargetPos aRandom.
Proof.
  intros F. unfold vertexPosition. fold (breathed u aChaosPos aTargetPos aRandom).
  cbv zeta.
  destruct (Rlt_dec (Vector3.distanceTo (breathed u aChaosPos aTargetPos aRandom)
                                        (uMouse u)) interactionRadius);
    [lra | reflexivity].
Qed.

(** X13. Away from the pointer, a foliage vertex is drawn within
    0.03 * uProgress of the blend of its two positions: the breathing moves
    it by no more than that along its own direction.  At progress 0 it is
    drawn exactly at its chaos position, at progress 1 around its target
    position.  (The blend is taken off the origin, where the shader
    normalizes it.) *)
Theorem X13_vertex_breathing :
  forall (u : Uniforms) (aChaosPos aTargetPos : Vector3.t) (aRandom : R),
    0 <= uProgress u ->
    Vector3.length (GLSL.mix aChaosPos aTargetPos (uProgress u)) <> 0 ->
    interactionRadius
      <= Vector3.distanceTo (breathed u aChaosPos aTargetPos aRandom) (uMouse u) ->
    Vector3.distanceTo (vertexPosition u aChaosPos aTargetPos aRandom)
                       (GLSL.mix aChaosPos aTargetPos (uProgress u))
      <= 0.03 * uProgress u /\
    (uProgress u = 0 -> vertexPosition u aChaosPos aTargetPos aRandom = aChaosPos) /\
    (uProgress u = 1 -> GLSL.mix aChaosPos aTargetPos (uProgress u) = aTargetPos).
Proof.
  intros u c t r P N F.
  rewrite (vertexPosition_far u c t r F).
  split; [| split].
  - unfold breathed. cbv zeta.
    set (p0 := GLSL.mix c t (uProgress u)) in *.
    set (breath := sin (uTime u * 1.5 + Vector3.y p0 * 0.5 + r * 10.0)).
    rewrite <- length_sub.
    replace (Vector3.sub
               (Vector3.add p0
                  (Vector3.multiplyScalar (GLSL.normalize p0)
                     (breath * 0.03 * uProgress u))) p0)
      with (Vector3.multiplyScalar (GLSL.normalize p0) (breath * 0.03 * uProgress u))
      by (apply vec_eq; simpl; ring).
    rewrite length_multiplyScalar_abs, (GLSL_normalize_length p0 N), Rmult_1_l.
    pose proof (SIN_bound (uTime u * 1.5 + Vector3.y p0 * 0.5 + r * 10.0)) as [S0 S1].
    fold breath in S0, S1.
    apply Rabs_le. split; nra.
  - intros Z. unfold breathed. cbv zeta. rewrite Z.
    apply vec_eq; simpl; ring.
  - intros E. rewrite E. apply vec_eq; simpl; ring.
Qed.

Lemma X13_vertex_breathing_witness :
  Vector3.distanceTo
    (vertexPosition initialUniforms (Vector3.mk 1 0 0) (Vector3.mk 0 1 0) 0)
    (GLSL.mix (Vector3.mk 1 0 0) (Vector3.mk 0 1 0) (uProgress initialUniforms))
  <= 0.03 * uProgress initialUniforms.
Proof.
  assert (M : GLSL.mix (Vector3.mk 1 0 0) (Vector3.mk 0 1 0) (uProgress initialUniforms)
              = Vector3.mk 1 0 0).
  { apply vec_eq; simpl; ring. }
  assert (B : breathed initialUniforms (Vector3.mk 1 0 0) (Vector3.mk 0 1 0) 0
              = Vector3.mk 1 0 0).
  { unfold breathed. cbv zeta. apply vec_eq; simpl; ring. }
  apply (X13_vertex_breathing initialUniforms (Vector3.mk 1 0 0) (Vector3.mk 0 1 0) 0).
  - simpl. lra.
  - rewrite M. rewrite length_axis; lra.
  - rewrite B. apply distanceTo_ge;
      unfold interactionRadius, Vector3.distanceToSquared; simpl; lra.
Defined.

(** ** The gesture classifier *)

Lemma nth_error_defined {A : Type} (l : list A) (n : nat) :
  (n < length l)%nat -> exists a, nth_error l n = Some a.
Proof.
  intros H. destruct (nth_error l n) as [a |] eqn:E.
  - exists a. reflexivity.
  - apply nth_error_None in E. lia.
Qed.

(** X14. With a hand detected, [predictWebcam] goes through exactly when
    the hand has the landmark 20, that is 21 landmarks or more; with fewer
    it fails on a missing landmark, before any state is set.  Only the
    first hand of a detection is read. *)
Theorem X14_predict_needs_21_landmarks :
  forall (hand : list Landmark) (rest : list (list Landmark)) (s : AppState),
    ((exists s', predict (hand :: rest) s = Some s') <-> (20 < length hand)%nat) /\
    predict (hand :: rest) s = predict [hand] s.
Proof.
  intros hand rest s. split; [| reflexivity]. split.
  - intros (s' & H). unfold predict, avgDistOf in H.
    destruct (nth_error hand 0) as [wrist |]; [| discriminate].
    cbn [fold_left] in H.
    destruct (nth_error hand 4) as [l4 |]; [| discriminate].
    destruct (nth_error hand 8) as [l8 |]; [| discriminate].
    destruct (nth_error hand 12) as [l12 |]; [| discriminate].
    destruct (nth_error hand 16) as [l16 |]; [| discriminate].
    destruct (nth_error hand 20) as [l20 |] eqn:E20; [| discriminate].
    apply nth_error_Some. rewrite E20. discriminate.
  - intros L. unfold predict, avgDistOf.
    destruct (nth_error_defined hand 0 ltac:(lia)) as (wrist & ->).
    cbn [fold_left].
    destruct (nth_error_defined hand 4 ltac:(lia)) as (l4 & ->).
    destruct (nth_error_defined hand 8 ltac:(lia)) as (l8 & ->).
    destruct (nth_error_defined hand 12 ltac:(lia)) as (l12 & ->).
    destruct (nth_error_defined hand 16 ltac:(lia)) as (l16 & ->).
    destruct (nth_error_defined hand 20 ltac:(lia)) as (l20 & ->).
    eexists. reflexivity.
Qed.

(** ** The photos *)

Lemma focused_id (photo : Photo) (activeId : option nat) (hand : HandPosition) :
  isFocused photo activeId hand = true -> activeId = Some (id photo).
Proof.
  unfold isFocused. destruct activeId as [a |]; [| discriminate].
  intros H. apply andb_prop in H. destruct H as [H _].
  apply Nat.eqb_eq in H. rewrite H. reflexivity.
Qed.

Lemma filter_id_NoDup (a : nat) (l : Population) :
  NoDup (map (fun f => id (fst f)) l) ->
  (length (filter (fun f => Nat.eqb (id (fst f)) a) l) <= 1)%nat.
Proof.
  induction l as [| f rest IH]; intros H; simpl.
  - lia.
  - inversion H as [| ? ? Hnot Hrest]; subst.
    destruct (Nat.eqb (id (fst f)) a) eqn:E.
    + apply Nat.eqb_eq in E. simpl.
      assert (Z : filter (fun g => Nat.eqb (id (fst g)) a) rest = []).
      { destruct (filter (fun g => Nat.eqb (id (fst g)) a) rest) as [| g tl] eqn:F;
          [reflexivity |].
        exfalso. apply Hnot.
        assert (G : In g (filter (fun g => Nat.eqb (id (fst g)) a) rest))
          by (rewrite F; left; reflexivity).
        apply filter_In in G. destruct G as [G1 G2].
        apply Nat.eqb_eq in G2. rewrite E, <- G2.
        apply in_map_iff. exists g. split; [reflexivity | exact G1]. }
      rewrite Z. simpl. lia.
    + apply IH. exact Hrest.
Qed.

(** X16. In a population whose ids differ, a frame zooms on one photo at
    most, and on none unless the pinch signal is true and a hand is on
    screen; a photo that is focused or zoomed is the one whose id is
    stored. *)
Theorem X16_one_zoom_at_most :
  forall (i : PolaroidInput) (s : PolaroidsState),
    NoDup (map (fun f => id (fst f)) (frames s)) ->
    let activeId := focusedIdRef (Polaroids_useFrame true i s) in
    let zoomed := fun f : Photo * Child =>
      isZoomed (fst f) activeId (in_hand i) (in_pinching i) in
    (length (filter zoomed (frames s)) <= 1)%nat /\
    (forall f, zoomed f = true ->
       activeId = Some (id (fst f)) /\ in_pinching i = true /\ in_hand i <> None) /\
    (in_pinching i = false \/ in_hand i = None -> filter zoomed (frames s) = []).
Proof.
  intros i s ND activeId zoomed.
  assert (Z : forall f, zoomed f = true ->
                activeId = Some (id (fst f)) /\ in_pinching i = true
                /\ in_hand i <> None).
  { intros f H. unfold zoomed, isZoomed in H.
    apply andb_prop in H. destruct H as [F P].
    split; [apply (focused_id _ _ _ F) |]. split; [exact P |].
    intros N. rewrite N, isFocused_no_hand in F. discriminate. }
  split; [| split; [exact Z |]].
  - destruct activeId as [a |] eqn:EA.
    + eapply Nat.le_trans; [| apply (filter_id_NoDup a _ ND)].
      clear ND. induction (frames s) as [| f rest IH]; simpl; [lia |].
      destruct (zoomed f) eqn:E.
      * destruct (Z f E) as [EA' _]. inversion EA'; subst.
        rewrite Nat.eqb_refl. simpl. lia.
      * destruct (Nat.eqb (id (fst f)) a); simpl; lia.
    + assert (E : filter zoomed (frames s) = []).
      { destruct (filter zoomed (frames s)) as [| g tl] eqn:F; [reflexivity |].
        assert (G : In g (filter zoomed (frames s))) by (rewrite F; left; reflexivity).
        apply filter_In in G. destruct G as [_ G].
        destruct (Z g G) as [EA' _]. discriminate. }
      rewrite E. simpl. lia.
  - intros H.
    destruct (filter zoomed (frames s)) as [| g tl] eqn:F; [reflexivity |].
    assert (G : In g (filter zoomed (frames s))) by (rewrite F; left; reflexivity).
    apply filter_In in G. destruct G as [_ G].
    destruct (Z g G) as (_ & P & N).
    destruct H as [H | H]; [rewrite H in P; discriminate | contradiction].
Qed.

Lemma X16_one_zoom_at_most_witness :
  Nat.le
    (length
     (filter
        (fun f : Photo * Child =>
           isZoomed (fst f)
             (focusedIdRef
                (Polaroids_useFrame true
                   (mkInput chaos (Some (0.5, 0.5)) true 0 0.1 (pinhole 1))
                   (mkPolaroids (Some 1%nat)
                      [(mkPhoto 0 0 0 Vector3.zero (mkEuler 0 0 0) 1 0,
                        mkChild (Vector3.mk 0 0 (-1)) 1);
                       (mkPhoto 1 0 0 Vector3.zero (mkEuler 0 0 0) 1 0,
                        mkChild (Vector3.mk 1 0 (-1)) 1)])))
             (Some (0.5, 0.5)) true)
        [(mkPhoto 0 0 0 Vector3.zero (mkEuler 0 0 0) 1 0,
          mkChild (Vector3.mk 0 0 (-1)) 1);
         (mkPhoto 1 0 0 Vector3.zero (mkEuler 0 0 0) 1 0,
          mkChild (Vector3.mk 1 0 (-1)) 1)])
   ) 1%nat.
Proof.
  apply (X16_one_zoom_at_most
           (mkInput chaos (Some (0.5, 0.5)) true 0 0.1 (pinhole 1))
           (mkPolaroids (Some 1%nat)
              [(mkPhoto 0 0 0 Vector3.zero (mkEuler 0 0 0) 1 0,
                mkChild (Vector3.mk 0 0 (-1)) 1);
               (mkPhoto 1 0 0 Vector3.zero (mkEuler 0 0 0) 1 0,
                mkChild (Vector3.mk 1 0 (-1)) 1)])).
  simpl. apply NoDup_cons; [intros [H | []]; discriminate |].
  apply NoDup_cons; [intros [] | apply NoDup_nil].
Defined.

Lemma targetOf_zoomed (i : PolaroidInput) (activeId : option nat) (photo : Photo) :
  isZoomed photo activeId (in_hand i) (in_pinching i) = true ->
  targetOf i activeId photo =
  (Vector3.sub (cam_position (in_camera i))
     (Vector3.multiplyScalar
        (Vector3.normalize (Vector3.sub (cam_position (in_camera i)) Vector3.zero)) 5),
   2.0, 5.0).
Proof. intros Z. unfold targetOf. rewrite Z. reflexivity. Qed.

Lemma sub_zero (a : Vector3.t) : Vector3.sub a Vector3.zero = a.
Proof. vec. Qed.

(** X17. A zoomed photo is sent to the point of the line from the camera to
    the origin that lies 5 in front of the camera, at scale 2 and at the
    fast rate 5, whatever the mode is: with the camera at distance D of the
    origin, D not zero, the target is the camera position scaled by
    1 - 5 / D. *)
Theorem X17_zoom_target :
  forall (i : PolaroidInput) (activeId : option nat) (photo : Photo),
    isZoomed photo activeId (in_hand i) (in_pinching i) = true ->
    Vector3.length (cam_position (in_camera i)) <> 0 ->
    let camPos := cam_position (in_camera i) in
    let target := fst (fst (targetOf i activeId photo)) in
    targetOf i activeId photo = (target, 2.0, 5.0) /\
    target = Vector3.multiplyScalar camPos (1 - 5 / Vector3.length camPos) /\
    Vector3.distanceTo camPos target = 5.
Proof.
  intros i activeId photo Z N camPos target.
  pose proof (targetOf_zoomed i activeId photo Z) as T.
  unfold target. rewrite T. simpl fst. fold camPos.
  rewrite sub_zero.
  rewrite (normalize_nonzero camPos (Vector3.length camPos) eq_refl N).
  rewrite multiplyScalar_twice.
  assert (E : Vector3.sub camPos
                (Vector3.multiplyScalar camPos (1 / Vector3.length camPos * 5))
              = Vector3.multiplyScalar camPos (1 - 5 / Vector3.length camPos)).
  { apply vec_eq; simpl; field; exact N. }
  rewrite E. split; [reflexivity |]. split; [reflexivity |].
  rewrite <- length_sub.
  replace (Vector3.sub camPos
             (Vector3.multiplyScalar camPos (1 - 5 / Vector3.length camPos)))
    with (Vector3.multiplyScalar camPos (5 / Vector3.length camPos))
    by (apply vec_eq; simpl; field; exact N).
  pose proof (length_nonneg camPos) as P.
  unfold camPos in *.
  rewrite length_multiplyScalar.
  - field. exact N.
  - apply Rlt_le, Rdiv_lt_0_compat; lra.
Qed.

Lemma X17_zoom_target_witness :
  Vector3.distanceTo (Vector3.mk 20 0 0)
    (fst (fst (targetOf
                 (mkInput formed (Some (0.5, 0.5)) true 0 0.1
                          (mkCamera (Vector3.mk 20 0 0) (fun v => v)))
                 (Some 3%nat)
                 (mkPhoto 3 0 0 Vector3.zero (mkEuler 0 0 0) 1 0))))
  = 5.
Proof.
  apply (X17_zoom_target
           (mkInput formed (Some (0.5, 0.5)) true 0 0.1
                    (mkCamera (Vector3.mk 20 0 0) (fun v => v)))
           (Some 3%nat)
           (mkPhoto 3 0 0 Vector3.zero (mkEuler 0 0 0) 1 0)).
  - reflexivity.
  - simpl. rewrite length_axis; lra.
Defined.

Lemma horizontal_applyAxisAngleY (a : Vector3.t) (angle : R) :
  horizontal (Vector3.applyAxisAngleY a angle) = horizontal a.
Proof.
  unfold horizontal, Vector3.applyAxisAngleY; simpl. f_equal.
  pose proof (sin2_cos2 angle) as T. unfold Rsqr in T.
  transitivity ((Vector3.x a * Vector3.x a + Vector3.z a * Vector3.z a)
                * (sin angle * sin angle + cos angle * cos angle)); [ring |].
  rewrite T. ring.
Qed.

Lemma length_applyAxisAngleY (a : Vector3.t) (angle : R) :
  Vector3.length (Vector3.applyAxisAngleY a angle) = Vector3.length a.
Proof.
  unfold Vector3.length, Vector3.lengthSq, Vector3.applyAxisAngleY; simpl. f_equal.
  pose proof (sin2_cos2 angle) as T. unfold Rsqr in T.
  transitivity ((Vector3.x a * Vector3.x a + Vector3.z a * Vector3.z a)
                * (sin angle * sin angle + cos angle * cos angle)
                + Vector3.y a * Vector3.y a); [ring |].
  rewrite T. ring.
Qed.

(** X18. In chaos mode a photo that is not zoomed is sent to its chaos
    position turned about the vertical axis by the hand, by
    (x - 0.5) * 4 pi: at the same height, the same distance to the axis and
    the same distance to the origin.  A hand at the centre, at the left or
    at the right edge of the image (x = 0.5, 0, 1) leaves it where it is, as
    the absence of a hand does. *)
Theorem X18_chaos_turn :
  forall (i : PolaroidInput) (activeId : option nat) (photo : Photo),
    in_mode i = chaos ->
    isZoomed photo activeId (in_hand i) (in_pinching i) = false ->
    let target := fst (fst (targetOf i activeId photo)) in
    Vector3.y target = Vector3.y (chaosPos photo) /\
    horizontal target = horizontal (chaosPos photo) /\
    Vector3.length target = Vector3.length (chaosPos photo) /\
    (forall h, in_hand i = Some h ->
       target = Vector3.applyAxisAngleY (chaosPos photo) ((fst h - 0.5) * PI * 4)) /\
    (forall h, in_hand i = Some h -> fst h = 0.5 \/ fst h = 0 \/ fst h = 1 ->
       target = chaosPos photo) /\
    (in_hand i = None -> target = chaosPos photo).
Proof.
  intros i activeId photo M Z target.
  assert (T : target = match in_hand i with
                       | Some h => Vector3.applyAxisAngleY (chaosPos photo)
                                     ((fst h - 0.5) * PI * 4)
                       | None => chaosPos photo
                       end).
  { unfold target, targetOf. rewrite Z, M. simpl.
    destruct (in_hand i); reflexivity. }
  split; [| split; [| split; [| split; [| split]]]].
  - rewrite T. destruct (in_hand i); reflexivity.
  - rewrite T. destruct (in_hand i); [apply horizontal_applyAxisAngleY | reflexivity].
  - rewrite T. destruct (in_hand i); [apply length_applyAxisAngleY | reflexivity].
  - intros h H. rewrite T, H. reflexivity.
  - intros h H E. rewrite T, H.
    assert (C : cos ((fst h - 0.5) * PI * 4) = 1 /\ sin ((fst h - 0.5) * PI * 4) = 0).
    { destruct E as [E | [E | E]]; rewrite E.
      - replace ((0.5 - 0.5) * PI * 4) with 0 by lra. split; [apply cos_0 | apply sin_0].
      - replace ((0 - 0.5) * PI * 4) with (- (2 * PI)) by lra.
        rewrite cos_neg, sin_neg, cos_2PI, sin_2PI. split; lra.
      - replace ((1 - 0.5) * PI * 4) with (2 * PI) by lra.
        split; [apply cos_2PI | apply sin_2PI]. }
    destruct C as [C S]. unfold Vector3.applyAxisAngleY. rewrite C, S.
    apply vec_eq; simpl; ring.
  - intros H. rewrite T, H. reflexivity.
Qed.

Lemma X18_chaos_turn_witness :
  horizontal
    (fst (fst (targetOf
                 (mkInput chaos (Some (0.7, 0.5)) false 0 0.1 (pinhole 1))
                 None
                 (mkPhoto 3 0 0 (Vector3.mk 1 2 3) (mkEuler 0 0 0) 1 0))))
  = horizontal (Vector3.mk 1 2 3).
Proof.
  apply (X18_chaos_turn
           (mkInput chaos (Some (0.7, 0.5)) false 0 0.1 (pinhole 1))
           None
           (mkPhoto 3 0 0 (Vector3.mk 1 2 3) (mkEuler 0 0 0) 1 0));
    reflexivity.
Defined.

(** X19. A frame moves a child a share of the way to its target and no
    further: with [delta * rate] between 0 and 1, where the rate is 5 for a
    zoomed photo and 2.5 otherwise, the distance of the child to the target
    of the frame is multiplied by [1 - delta * rate], and the gap of its
    scale to the target scale by [1 - delta * 4]. *)
Theorem X19_child_approach :
  forall (i : PolaroidInput) (activeId : option nat) (photo : Photo) (child : Child),
    let target := fst (fst (targetOf i activeId photo)) in
    let targetScale := snd (fst (targetOf i activeId photo)) in
    let rate := snd (targetOf i activeId photo) in
    let child' := snd (moveChild i activeId (photo, child)) in
    0 <= in_delta i -> in_delta i * rate <= 1 ->
    rate = (if isZoomed photo activeId (in_hand i) (in_pinching i) then 5.0 else 2.5) /\
    Vector3.distanceTo (position child') target
      = Vector3.distanceTo (position child) target * (1 - in_delta i * rate) /\
    Vector3.distanceTo (position child') target
      <= Vector3.distanceTo (position child) target /\
    targetScale - c_scale child'
      = (1 - in_delta i * 4.0) * (targetScale - c_scale child).
Proof.
  intros i activeId photo child target targetScale rate child' D L.
  assert (Rt : rate = (if isZoomed photo activeId (in_hand i) (in_pinching i)
                       then 5.0 else 2.5)).
  { unfold rate, targetOf. reflexivity. }
  assert (Rp : 0 <= rate).
  { rewrite Rt. destruct (isZoomed photo activeId (in_hand i) (in_pinching i)); lra. }
  assert (C : child' = mkChild (Vector3.lerp (position child) target (in_delta i * rate))
                               (MathUtils.lerp (c_scale child) targetScale
                                               (in_delta i * 4.0))).
  { unfold child', moveChild, target, targetScale, rate.
    destruct (targetOf i activeId photo) as [[pos sc] rt]. reflexivity. }
  rewrite C. simpl.
  split; [exact Rt |].
  rewrite distanceTo_lerp by exact L.
  split; [reflexivity |]. split.
  - pose proof (distanceTo_nonneg (position child) target) as P.
    assert (0 <= in_delta i * rate) by (apply Rmult_le_pos; assumption).
    nra.
  - unfold MathUtils.lerp. ring.
Qed.

Lemma X19_child_approach_witness :
  Vector3.distanceTo
    (position
       (snd (moveChild (mkInput chaos None false 0 0.1 (pinhole 1)) None
               (mkPhoto 3 0 0 (Vector3.mk 1 2 3) (mkEuler 0 0 0) 1 0,
                mkChild Vector3.zero 1))))
    (fst (fst (targetOf (mkInput chaos None false 0 0.1 (pinhole 1)) None
                 (mkPhoto 3 0 0 (Vector3.mk 1 2 3) (mkEuler 0 0 0) 1 0))))
  <= Vector3.distanceTo Vector3.zero
       (fst (fst (targetOf (mkInput chaos None false 0 0.1 (pinhole 1)) None
                    (mkPhoto 3 0 0 (Vector3.mk 1 2 3) (mkEuler 0 0 0) 1 0)))).
Proof.
  apply (X19_child_approach (mkInput chaos None false 0 0.1 (pinhole 1)) None
           (mkPhoto 3 0 0 (Vector3.mk 1 2 3) (mkEuler 0 0 0) 1 0)
           (mkChild Vector3.zero 1)); simpl; lra.
Defined.

Lemma photosFrom_ids_seq (random : nat -> R) (count : nat) :
  forall i n, map id (fst (photosFrom random i count n)) = seq i count.
Proof.
  induction count as [| count IH]; intros i n; simpl.
  - reflexivity.
  - unfold bind, ret.
    assert (Ei : id (fst (photo random i n)) = i) by reflexivity.
    destruct (photo random i n) as [p0 n0].
    specialize (IH (S i) n0).
    destruct (photosFrom random (S i) count n0) as [rest n1].
    simpl in *. rewrite Ei, IH. reflexivity.
Qed.

Lemma photosFrom_In (random : nat -> R) (count : nat) :
  forall i n p,
    In p (fst (photosFrom random i count n)) ->
    exists j m, p = fst (photo random j m).
Proof.
  induction count as [| count IH]; intros i n p H; simpl in H.
  - destruct H.
  - unfold bind, ret in H.
    destruct (photo random i n) as [p0 n0] eqn:E0.
    destruct (photosFrom random (S i) count n0) as [rest n1] eqn:E1.
    simpl in H. destruct H as [<- | H].
    + exists i, n. rewrite E0. reflexivity.
    + apply (IH (S i) n0). rewrite E1. exact H.
Qed.

(** X20. [Polaroids] makes 30 photos whose ids are 0 to 29 in order, hence
    all different.  With draws in [0, 1) each photo hangs at a height
    within 3.25 of the middle of the tree, at an angle within one turn, has
    a scale of at least 0.9 and below 1.3, a tilt of at most 0.1, a phase
    below 10 and a chaos position in the cube of half side 10. *)
Theorem X20_photos_population :
  forall random : nat -> R,
    length (photos random) = 30%nat /\
    map id (photos random) = seq 0 30 /\
    NoDup (map id (photos random)) /\
    ((forall k, unitDraw (random k)) ->
     forall p, In p (photos random) ->
       -3.25 <= treeY p < 3.25 /\
       0 <= treeAngle p < 2 * PI /\
       0.9 <= ph_scale p < 1.3 /\
       -0.1 <= rz (rotation p) < 0.1 /\
       0 <= ph_phase p < 10 /\
       (-10 <= Vector3.x (chaosPos p) < 10 /\
        -10 <= Vector3.y (chaosPos p) < 10 /\
        -10 <= Vector3.z (chaosPos p) < 10)).
Proof.
  intros random.
  assert (I : map id (photos random) = seq 0 30) by apply photosFrom_ids_seq.
  split; [| split; [exact I | split]].
  - rewrite <- (length_map id), I. apply length_seq.
  - rewrite I. apply seq_NoDup.
  - intros U p H. apply photosFrom_In in H. destruct H as (j & m & ->).
    pose proof PI_RGT_0 as Pi.
    pose proof (U m) as U0. pose proof (U (S m)) as U1.
    pose proof (U (S (S m))) as U2. pose proof (U (S (S (S m)))) as U3.
    pose proof (U (S (S (S (S m))))) as U4.
    pose proof (U (S (S (S (S (S m)))))) as U5.
    pose proof (U (S (S (S (S (S (S m))))))) as U6.
    pose proof (U (S (S (S (S (S (S (S m)))))))) as U7.
    unfold unitDraw in *.
    unfold photo, bind, draw, ret; simpl.
    unfold CONFIG.dimensions.height.
    repeat split; try lra; try nra.
Qed.

Lemma X20_photos_population_witness :
  0.9 <= ph_scale (fst (photo (fun _ => 1 / 2) 0%nat 0%nat)) < 1.3.
Proof.
  assert (U : forall k : nat, unitDraw ((fun _ : nat => 1 / 2) k)).
  { intros k. unfold unitDraw. lra. }
  destruct (X20_photos_population (fun _ => 1 / 2)) as (_ & _ & _ & H).
  apply (H U (fst (photo (fun _ => 1 / 2) 0%nat 0%nat))).
  left. reflexivity.
Defined.

(** ** The top star *)

Lemma runTopStar_scale (m : Mode) (times : list R) :
  forall s,
    let t := starTargetScale m in
    Vector3.sub (star_scale (runTopStar m times s)) (vec3 t)
    = Vector3.multiplyScalar (Vector3.sub (star_scale s) (vec3 t))
                             (0.95 ^ length times).
Proof.
  unfold runTopStar.
  induction times as [| time rest IH]; intros s; cbv zeta; simpl.
  - apply vec_eq; simpl; ring.
  - cbv zeta in IH. rewrite IH. simpl.
    fold (vec3 (starTargetScale m)). rewrite sub_lerp, multiplyScalar_twice.
    f_equal. set (p := 0.95 ^ length rest). undecimal. field.
Qed.

(** X21. Over mounted frames in one mode, each frame brings the scale of
    the top star to 0.95 of its gap to the target scale of the mode (0.85
    formed, 0.01 chaos), whatever the length of the tick: after n frames
    the gap is 0.95 to the power n times what it was.  A scale between 0.01
    and 0.85 stays between them, so that the star never shrinks to
    nothing. *)
Theorem X21_top_star_scale :
  forall (m : Mode) (times : list R) (s : TopStarState),
    let t := starTargetScale m in
    let s' := runTopStar m times s in
    Vector3.sub (star_scale s') (vec3 t)
      = Vector3.multiplyScalar (Vector3.sub (star_scale s) (vec3 t))
                               (0.95 ^ length times) /\
    (0.01 <= Vector3.x (star_scale s) <= 0.85 ->
     0.01 <= Vector3.x (star_scale s') <= 0.85) /\
    (forall time, star_rotation_y (runTopStar m (times ++ [time]) s) = time * 0.5).
Proof.
  intros m times s t s'.
  pose proof (runTopStar_scale m times s) as G. cbv zeta in G.
  fold t s' in G.
  split; [exact G |]. split.
  - intros B.
    apply (f_equal Vector3.x) in G. simpl in G.
    assert (P : 0 <= 0.95 ^ length times <= 1).
    { clear. induction (length times) as [| n IH]; simpl; [lra | nra]. }
    assert (T : 0.01 <= t <= 0.85).
    { unfold t, starTargetScale. destruct (Mode_eqb m formed); lra. }
    set (p := 0.95 ^ length times) in *.
    set (x' := Vector3.x (star_scale s')) in *.
    set (x := Vector3.x (star_scale s)) in *.
    assert (E : x' = t + (x - t) * p) by lra.
    rewrite E. split; nra.
  - intros time. unfold runTopStar. rewrite fold_left_app. reflexivity.
Qed.

Lemma X21_top_star_scale_witness :
  0.01 <= Vector3.x (star_scale (runTopStar chaos [0; 1] (mkTopStar 0 (vec3 0.85))))
       <= 0.85.
Proof.
  apply (X21_top_star_scale chaos [0; 1] (mkTopStar 0 (vec3 0.85))).
  simpl. lra.
Defined.

(** ** The camera nudge *)

(** X22. [Scene] steers the camera only with a hand on screen, the
    controls mounted and no pinch.  Then, for a hand inside the image and a
    polar angle of the controls between 0 and [maxPolarAngle], it asks for a
    polar angle again within that range, so that the controls never have to
    cut it, and for an azimuth that is 0.95 of the way off a target within
    1 radian of the front. *)
Theorem X22_camera_nudge :
  forall (h : R * R) (controls pinching : bool) (azimuthalAngle polarAngle : R),
    0 <= fst h <= 1 -> 0 <= snd h <= 1 ->
    0 <= polarAngle <= maxPolarAngle ->
    Scene_useFrame None controls pinching azimuthalAngle polarAngle = None /\
    Scene_useFrame (Some h) false pinching azimuthalAngle polarAngle = None /\
    Scene_useFrame (Some h) controls true azimuthalAngle polarAngle = None /\
    exists azimuth polar,
      Scene_useFrame (Some h) true false azimuthalAngle polarAngle
        = Some (azimuth, polar) /\
      0 < polar < maxPolarAngle /\
      -1 <= (fst h - 0.5) * 2.0 <= 1 /\
      azimuth - (fst h - 0.5) * 2.0
        = 0.95 * (azimuthalAngle - (fst h - 0.5) * 2.0) /\
      polar - (PI / 2 - (snd h - 0.5))
        = 0.95 * (polarAngle - (PI / 2 - (snd h - 0.5))).
Proof.
  intros h controls pinching az po Hx Hy Hp.
  split; [reflexivity |]. split; [reflexivity |].
  split; [unfold Scene_useFrame; destruct controls; reflexivity |].
  eexists. eexists. split; [reflexivity |].
  pose proof PI2_3_2 as P1. pose proof PI_4 as P2.
  unfold maxPolarAngle, MathUtils.lerp in *.
  assert (M : PI / 1.5 = PI * (2 / 3)) by lra.
  rewrite M in *.
  repeat split; lra.
Qed.

Lemma X22_camera_nudge_witness :
  Scene_useFrame (Some (0.5, 0.5)) true true 0 1 = None.
Proof.
  assert (B : 0 <= 1 <= maxPolarAngle).
  { pose proof PI2_3_2. unfold maxPolarAngle. lra. }
  apply (X22_camera_nudge (0.5, 0.5) true true 0 1); simpl; try lra; exact B.
Defined.

(** ** The images and the photo manager *)

Lemma filterFrom_above {A : Type} (idx : nat) (l : list A) :
  forall i, (idx < i)%nat ->
    filterFrom (fun j => negb (Nat.eqb j idx)) i l = l.
Proof.
  induction l as [| a rest IH]; intros i H; simpl.
  - reflexivity.
  - destruct (Nat.eqb_spec i idx) as [E | N]; [lia |].
    simpl. rewrite IH by lia. reflexivity.
Qed.

Lemma filterFrom_remove {A : Type} (idx : nat) (l : list A) :
  forall i, (i <= idx)%nat ->
    filterFrom (fun j => negb (Nat.eqb j idx)) i l
    = firstn (idx - i) l ++ skipn (S (idx - i)) l.
Proof.
  induction l as [| a rest IH]; intros i H; simpl.
  - destruct (idx - i)%nat; reflexivity.
  - destruct (Nat.eqb_spec i idx) as [E | N]; simpl.
    + subst. rewrite Nat.sub_diag. simpl. apply filterFrom_above. lia.
    + rewrite IH by lia.
      replace (idx - i)%nat with (S (idx - S i)) by lia. reflexivity.
Qed.

(** X23. Removing the image at a position of the list that exists takes
    out that one image and keeps the others in their order, so that the list
    gets shorter by one; at a position beyond the end it changes nothing. *)
Theorem X23_removeImage :
  forall (idx : nat) (l : list String.string),
    ((idx < length l)%nat ->
       removeImage idx l = firstn idx l ++ skipn (S idx) l /\
       S (length (removeImage idx l)) = length l) /\
    ((length l <= idx)%nat -> removeImage idx l = l).
Proof.
  intros idx l.
  assert (E : removeImage idx l = firstn idx l ++ skipn (S idx) l).
  { unfold removeImage. rewrite filterFrom_remove by lia.
    rewrite Nat.sub_0_r. reflexivity. }
  split.
  - intros H. split; [exact E |].
    rewrite E, length_app, length_firstn, length_skipn. lia.
  - intros H. rewrite E.
    rewrite firstn_all2 by exact H. rewrite skipn_all2 by lia.
    apply app_nil_r.
Qed.

Lemma X23_removeImage_witness :
  removeImage 1 ["a"%string; "b"%string; "c"%string] = ["a"%string; "c"%string] /\
  removeImage 5 ["a"%string; "b"%string; "c"%string]
    = ["a"%string; "b"%string; "c"%string].
Proof.
  split.
  - apply (X23_removeImage 1 ["a"%string; "b"%string; "c"%string]). simpl. lia.
  - apply (X23_removeImage 5 ["a"%string; "b"%string; "c"%string]). simpl. lia.
Defined.

Lemma activeImages_nonempty (custom : list String.string) :
  (0 < length (activeImages custom))%nat.
Proof. destruct custom; simpl; lia. Qed.

(** X24. Every photo has an image: whatever images were applied, the url of
    the photo i is defined and is one of the applied images, or one of the
    eight default images when none was applied.  The photo i shows the
    image i while there is one, and wraps around after the last; as the
    photos are 30, an image at position 30 or later is shown by no
    photo. *)
Theorem X24_photo_urls :
  forall (custom : list String.string) (i : nat),
    (exists url, photoUrl custom i = Some url /\ In url (activeImages custom)) /\
    (custom <> [] -> activeImages custom = custom) /\
    (activeImages [] = DEFAULT_IMAGES /\ length DEFAULT_IMAGES = 8%nat) /\
    ((i < length (activeImages custom))%nat ->
       photoUrl custom i = nth_error (activeImages custom) i) /\
    photoUrl custom (i + length (activeImages custom)) = photoUrl custom i /\
    length (photoUrls custom) = 30%nat /\
    (forall u, In u (photoUrls custom) ->
       exists k, (k < 30)%nat /\ u = nth_error (activeImages custom) k /\ u <> None).
Proof.
  intros custom i.
  pose proof (activeImages_nonempty custom) as P.
  assert (D : forall j, exists url,
             photoUrl custom j = Some url /\ In url (activeImages custom)).
  { intros j. unfold photoUrl.
    destruct (nth_error_defined (activeImages custom)
                (j mod length (activeImages custom))) as (url & E).
    - apply Nat.mod_upper_bound. lia.
    - exists url. split; [exact E |]. eapply nth_error_In. exact E. }
  split; [apply D |]. split; [| split; [| split; [| split; [| split]]]].
  - intros N. destruct custom; [contradiction | reflexivity].
  - split; reflexivity.
  - intros H. unfold photoUrl. rewrite Nat.mod_small by exact H. reflexivity.
  - unfold photoUrl. f_equal.
    rewrite <- (Nat.mul_1_l (length (activeImages custom))) at 1.
    apply Nat.Div0.mod_add.
  - unfold photoUrls. rewrite length_map. apply length_seq.
  - intros u H. unfold photoUrls in H. apply in_map_iff in H.
    destruct H as (j & E & Hj). apply in_seq in Hj.
    exists (j mod length (activeImages custom))%nat.
    split; [| split].
    + pose proof (Nat.Div0.mod_le j (length (activeImages custom))). lia.
    + rewrite <- E. reflexivity.
    + destruct (D j) as (url & E' & _). rewrite <- E, E'. discriminate.
Qed.

(** X25. Submitting the url field adds its text once: with an empty field
    nothing happens, with a filled one the text goes to the end of the list
    of images and the field is emptied, so that submitting again adds
    nothing.  The images of the tree are not touched. *)
Theorem X25_url_submit_once :
  forall g : Gallery,
    (truthy (inputUrl g) = false -> handleUrlSubmit g = g) /\
    (truthy (inputUrl g) = true ->
       images (handleUrlSubmit g) = images g ++ [inputUrl g] /\
       inputUrl (handleUrlSubmit g) = String.EmptyString) /\
    handleUrlSubmit (handleUrlSubmit g) = handleUrlSubmit g /\
    customImages (handleUrlSubmit g) = customImages g.
Proof.
  intros g. unfold handleUrlSubmit.
  destruct (truthy (inputUrl g)) eqn:T; simpl.
  - split; [discriminate |]. split; [intros _; split; reflexivity |].
    split; reflexivity.
  - rewrite T. split; [reflexivity |]. split; [discriminate |].
    split; reflexivity.
Qed.

Lemma runGallery_no_apply (events : list GalleryEvent) :
  forall g,
    forallb (fun e => negb (isApply e)) events = true ->
    customImages (runGallery events g) = customImages g.
Proof.
  unfold runGallery.
  induction events as [| e rest IH]; intros g H; simpl in *.
  - reflexivity.
  - apply andb_prop in H. destruct H as [He Hrest].
    rewrite (IH _ Hrest).
    destruct e; simpl in *; try reflexivity; try discriminate.
    + destruct files as [[| f fs] |]; reflexivity.
    + unfold handleUrlSubmit. destruct (truthy (inputUrl g)); reflexivity.
Qed.

(** X26. The photo manager edits a draft: whatever the user opens, closes,
    uploads, types, submits or removes, the images of the tree stay what
    they were until "Apply to Tree" is pressed; they are then the draft as
    it is at that moment, the panel closes, and later edits of the draft
    leave them alone until the next apply. *)
Theorem X26_apply_publishes_draft :
  forall (before after : list GalleryEvent) (g : Gallery),
    forallb (fun e => negb (isApply e)) after = true ->
    customImages (runGallery (before ++ ApplyChanges :: after) g)
      = images (runGallery before g) /\
    isOpen (runGallery (before ++ [ApplyChanges]) g) = false /\
    images (runGallery (before ++ [ApplyChanges]) g) = images (runGallery before g) /\
    customImages (runGallery after g) = customImages g.
Proof.
  intros before after g H.
  split; [| split; [| split]].
  - unfold runGallery. rewrite fold_left_app. simpl.
    fold (runGallery after (applyChanges (fold_left galleryStep before g))).
    rewrite (runGallery_no_apply after _ H). reflexivity.
  - unfold runGallery. rewrite fold_left_app. reflexivity.
  - unfold runGallery. rewrite fold_left_app. reflexivity.
  - apply runGallery_no_apply. exact H.
Qed.

Lemma X26_apply_publishes_draft_witness :
  customImages
    (runGallery
       ([OpenPanel; InputChange "a"%string; UrlSubmit]
        ++ ApplyChanges :: [OpenPanel; RemoveImage 0])
       initialGallery)
  = images (runGallery [OpenPanel; InputChange "a"%string; UrlSubmit] initialGallery).
Proof.
  apply (X26_apply_publishes_draft
           [OpenPanel; InputChange "a"%string; UrlSubmit]
           [OpenPanel; RemoveImage 0] initialGallery).
  reflexivity.
Defined.

(** ** The fragment shader and the size of a point *)

Lemma clamp_unit (x : R) : 0 <= clamp x 0 1 <= 1.
Proof.
  unfold clamp. split.
  - apply Rmin_glb; [apply Rmax_r | lra].
  - apply Rmin_r.
Qed.

Lemma smoothstep_unit (edge0 edge1 x : R) : 0 <= smoothstep edge0 edge1 x <= 1.
Proof.
  unfold smoothstep. cbv zeta.
  pose proof (clamp_unit ((x - edge0) / (edge1 - edge0))) as [L U].
  set (t := clamp ((x - edge0) / (edge1 - edge0)) 0 1) in *.
  split; [| assert (0 <= (1 - t) * (1 - t) * (1 + 2 * t)) by
                (apply Rmult_le_pos; [apply Rle_0_sqr | lra]) ]; nra.
Qed.

Lemma smoothstep_below (edge0 edge1 x : R) :
  edge0 < edge1 -> x <= edge0 -> smoothstep edge0 edge1 x = 0.
Proof.
  intros E H. unfold smoothstep, clamp. cbv zeta.
  assert (Q : (x - edge0) / (edge1 - edge0) <= 0).
  { unfold Rdiv. rewrite <- (Rmult_0_l (/ (edge1 - edge0))).
    apply Rmult_le_compat_r; [| lra].
    apply Rlt_le, Rinv_0_lt_compat. lra. }
  rewrite (Rmax_right _ 0 Q). rewrite Rmin_left by lra. ring.
Qed.

(** X27. A fragment of a foliage point is dropped exactly when it lies
    further than 0.5 from the centre of the point, so that the point is a
    disc.  A fragment that is kept has an alpha between 0 and 1, which is 1
    up to 0.45 from the centre; and on the pointer itself (distance 0) its
    colour is the rim colour plus the sparkle, which is at most 0.15. *)
Theorem X27_fragment :
  forall (uColor uColor2 : Vector3.t) (time : R) (gl_PointCoord : R * R)
         (vDistToMouse vRandom : R),
    let r := dist2D (fst gl_PointCoord) (snd gl_PointCoord) 0.5 0.5 in
    let sparkle := sin (time * 8.0 + vRandom * 100.0) * 0.5 + 0.5 in
    (fragment uColor uColor2 time gl_PointCoord vDistToMouse vRandom = None
       <-> 0.5 < r) /\
    (forall colour alpha,
        fragment uColor uColor2 time gl_PointCoord vDistToMouse vRandom
          = Some (colour, alpha) ->
        0 <= alpha <= 1 /\
        (r <= 0.45 -> alpha = 1) /\
        (vDistToMouse = 0 ->
           colour = Vector3.add uColor2 (vec3 (sparkle * 0.15))) /\
        0 <= sparkle * 0.15 <= 0.15).
Proof.
  intros uColor uColor2 time pc vd vr r sparkle.
  unfold fragment. fold r. cbv zeta.
  destruct (Rgt_dec r 0.5) as [G | G].
  - split; [split; [intros _; exact G | reflexivity] |].
    intros colour alpha H. discriminate.
  - split; [split; [discriminate | intros H; exfalso; apply G; exact H] |].
    intros colour alpha H. inversion H as [[Hc Ha]]. clear H.
    pose proof (smoothstep_unit 0.45 0.5 r) as [S0 S1].
    pose proof (SIN_bound (time * 8.0 + vr * 100.0)) as [B0 B1].
    split; [lra |]. split; [| split].
    + intros Hr. rewrite (smoothstep_below 0.45 0.5 r) by lra. lra.
    + intros Z. subst vd.
      destruct (Rlt_dec 0 3.5) as [_ | N]; [| exfalso; lra].
      rewrite (smoothstep_below 0.0 3.5 0) by lra.
      fold sparkle. f_equal.
      apply vec_eq; simpl; lra.
    + unfold sparkle. lra.
Qed.

(** X28. A foliage point in front of the camera is never drawn smaller for
    being near the pointer: within distance 2 of it the size is multiplied
    by a factor between 1 and 2, beyond it the size is the base size; and
    with the least size attribute 0.2 of the generator the point has a
    size above zero. *)
Theorem X28_pointSize :
  forall (aSize uPixelRatio mvZ dist time : R),
    0 <= aSize -> 0 <= uPixelRatio -> mvZ < 0 ->
    let base := (aSize * uPixelRatio * 40.0) * (1.0 / - mvZ) in
    base <= pointSize aSize uPixelRatio mvZ dist time <= 2 * base /\
    (2.0 <= dist -> pointSize aSize uPixelRatio mvZ dist time = base) /\
    (0.2 <= aSize -> 0 < uPixelRatio ->
       0 < pointSize aSize uPixelRatio mvZ dist time).
Proof.
  intros aSize ratio mvZ dist time Ha Hr Hz base.
  assert (I : 0 < 1.0 / - mvZ).
  { apply Rdiv_lt_0_compat; lra. }
  assert (B : 0 <= base).
  { unfold base. apply Rmult_le_pos; [| lra].
    apply Rmult_le_pos; [apply Rmult_le_pos; assumption | lra]. }
  pose proof (SIN_bound (time * 15.0)) as [S0 S1].
  unfold pointSize. fold base. cbv zeta.
  destruct (Rlt_dec dist 2.0) as [L | G].
  - split; [split; nra |]. split; [intros H; exfalso; lra |].
    intros H1 H2.
    assert (P : 0 < base).
    { unfold base. apply Rmult_lt_0_compat; [| exact I].
      apply Rmult_lt_0_compat; [apply Rmult_lt_0_compat |]; lra. }
    nra.
  - split; [split; lra |]. split; [reflexivity |].
    intros H1 H2. unfold base. apply Rmult_lt_0_compat; [| exact I].
    apply Rmult_lt_0_compat; [apply Rmult_lt_0_compat |]; lra.
Qed.

Lemma X28_pointSize_witness :
  0.5 * 1 * 40.0 * (1.0 / - -10)
  <= pointSize 0.5 1 (-10) 1 0
  <= 2 * (0.5 * 1 * 40.0 * (1.0 / - -10)).
Proof.
  apply (X28_pointSize 0.5 1 (-10) 1 0); lra.
Defined.
